(** * xchainer/routines/creation.cc: array construction routines

    A shallow embedding of the creation routines of xchainer
    ([GetRequiredBytes], [FromHostData], [Empty], [Full], [Zeros], [Ones],
    [Arange] and the [*Like] family) together with the parts of [Shape],
    [Strides], [Dtype], [Scalar], [Array] and [Device] they rely on.

    Conventions.
    - [int64_t] and [size_t] values are integers of [Z]; every arithmetic
      operation of the source is written with its 64-bit wrap-around
      ([Int64.wrap] for the signed type, [SizeT.wrap] for the unsigned one).
    - [double] values are IEEE 754 binary64 numbers of [SpecFloat]
      (precision 53, maximal exponent 1024).
    - the device is a state threaded through every routine; it records each
      request it receives and owns the memory of the buffers it handed out. *)

From Stdlib Require Import String ZArith List Bool Lia Permutation.
From Stdlib Require Import Floats.SpecFloat.
Import ListNotations.

Local Open Scope Z_scope.

(** ** Machine integers *)

Module Int64.
Definition modulus : Z := 2 ^ 64.
Definition min_signed : Z := - 2 ^ 63.
Definition max_signed : Z := 2 ^ 63 - 1.

(** Two's complement reduction of an integer to the range of [int64_t]. *)
Definition wrap (z : Z) : Z := (z + 2 ^ 63) mod modulus - 2 ^ 63.

Definition in_range (z : Z) : Prop := min_signed <= z <= max_signed.

Definition sub (a b : Z) : Z := wrap (a - b).
Definition mul (a b : Z) : Z := wrap (a * b).

(** [std::abs] on [int64_t]. *)
Definition abs (a : Z) : Z := wrap (Z.abs a).
End Int64.

Module SizeT.
Definition modulus : Z := 2 ^ 64.

(** Conversion of an integer to [size_t]. *)
Definition wrap (z : Z) : Z := z mod modulus.

Definition in_range (z : Z) : Prop := 0 <= z < modulus.

Definition add (a b : Z) : Z := wrap (a + b).
End SizeT.

(** ** Dtype *)

Module DtypeKind.
Inductive t : Set := kBool | kInt | kUInt | kFloat.

Definition eqb (a b : t) : bool :=
  match a, b with
  | kBool, kBool | kInt, kInt | kUInt, kUInt | kFloat, kFloat => true
  | _, _ => false
  end.
End DtypeKind.
Abbreviation DtypeKind := DtypeKind.t.

Module Dtype.
Inductive t : Set :=
| kBool | kInt8 | kInt16 | kInt32 | kInt64 | kUInt8 | kFloat32 | kFloat64.

Definition eqb (a b : t) : bool :=
  match a, b with
  | kBool, kBool | kInt8, kInt8 | kInt16, kInt16 | kInt32, kInt32
  | kInt64, kInt64 | kUInt8, kUInt8 | kFloat32, kFloat32
  | kFloat64, kFloat64 => true
  | _, _ => false
  end.
End Dtype.
Abbreviation Dtype := Dtype.t.

(** Modelled from the spec: [GetKind] of dtype.h, whose source is not
    available.  A dtype carries "a kind classification (boolean,
    integer, float)"; the unsigned 8-bit integer type has its own integer
    kind. *)
Definition GetKind (dtype : Dtype) : DtypeKind :=
  match dtype with
  | Dtype.kBool => DtypeKind.kBool
  | Dtype.kInt8 | Dtype.kInt16 | Dtype.kInt32 | Dtype.kInt64 => DtypeKind.kInt
  | Dtype.kUInt8 => DtypeKind.kUInt
  | Dtype.kFloat32 | Dtype.kFloat64 => DtypeKind.kFloat
  end.

(** Modelled from the spec: [GetElementSize] of dtype.h, whose source is not
    available.  A dtype carries "a fixed byte size": the size of
    the C++ type of its elements. *)
Definition GetElementSize (dtype : Dtype) : Z :=
  match dtype with
  | Dtype.kBool | Dtype.kInt8 | Dtype.kUInt8 => 1
  | Dtype.kInt16 => 2
  | Dtype.kInt32 | Dtype.kFloat32 => 4
  | Dtype.kInt64 | Dtype.kFloat64 => 8
  end.

(** ** Shape and Strides *)

(** A shape is the sequence of its dimensions, a strides value the sequence of
    its signed byte steps; both hold [int64_t] entries. *)
Definition Shape := list Z.
Definition Strides := list Z.

Definition ndim (dims : list Z) : nat := length dims.

(** [shape[i]] and [strides[i]]. *)
Definition at_ (dims : list Z) (i : nat) : Z := nth i dims 0.

(** Modelled from the spec: [Shape::GetTotalSize] of shape.h, whose source is
    not available.  The "total element count" is the product
    of the dimensions, accumulated in [int64_t] from 1. *)
Definition GetTotalSize (shape : Shape) : Z :=
  fold_left Int64.mul shape 1.

(** Modelled from the spec: the constructor [Strides{shape, dtype}] of
    strides.h, whose source is not available.  It yields the
    "canonical row-major strides": the last axis steps by one element, every
    other axis by the extent of the axes after it.  [strides_from] walks the
    axes from the last to the first and returns the strides together with the
    running stride. *)
Fixpoint strides_from (shape : Shape) (element_size : Z) : Strides * Z :=
  match shape with
  | [] => ([], element_size)
  | d :: rest =>
      let '(strides, stride) := strides_from rest element_size in
      (stride :: strides, Int64.mul stride d)
  end.

Definition Strides_of_size (shape : Shape) (element_size : Z) : Strides :=
  fst (strides_from shape element_size).

Definition Strides_of (shape : Shape) (dtype : Dtype) : Strides :=
  Strides_of_size shape (GetElementSize dtype).

(** ** internal::GetRequiredBytes *)

Module internal_bytes.
(** One iteration of the loop:
    [total_bytes += (shape[i] - 1) * std::abs(strides[i])].
    The product is computed in [int64_t], converted to [size_t] and added to
    the [size_t] accumulator. *)
Definition step (shape : Shape) (strides : Strides) (total_bytes : Z) (i : nat) : Z :=
  SizeT.add total_bytes
    (SizeT.wrap (Int64.mul (Int64.sub (at_ shape i) 1) (Int64.abs (at_ strides i)))).
End internal_bytes.

(** [size_t GetRequiredBytes(const Shape&, const Strides&, size_t)].
    The assertion [shape.ndim() == strides.ndim()] is a precondition of the
    theorems about the function; the routines that call it run the assertion
    ([internal.GetRequiredBytes_call]). *)
Definition GetRequiredBytes (shape : Shape) (strides : Strides) (element_size : Z) : Z :=
  if GetTotalSize shape =? 0 then 0
  else fold_left (internal_bytes.step shape strides) (seq 0 (ndim shape)) element_size.

(** The sum of the specification, over the integers:
    [Σ_i (shape[i] - 1) * |strides[i]|]. *)
Fixpoint span_sum (shape : Shape) (strides : Strides) : Z :=
  match shape, strides with
  | d :: shape', s :: strides' => (d - 1) * Z.abs s + span_sum shape' strides'
  | _, _ => 0
  end.

(** The product of the dimensions over the integers. *)
Definition total_elements (shape : Shape) : Z := fold_right Z.mul 1 shape.

(** ** double *)

Definition double := spec_float.

Module Double.
Definition prec : Z := 53.
Definition emax : Z := 1024.

(** Every value of the C++ type is a number of the format: its mantissa is
    canonical and its exponent bounded. *)
Definition valid (x : double) : bool := valid_binary prec emax x.

(** [static_cast<double>(z)] for an integer [z], rounding to nearest even. *)
Definition of_Z (z : Z) : double := binary_normalize prec emax z 0 false.

Definition sub (x y : double) : double := SFsub prec emax x y.
Definition mul (x y : double) : double := SFmul prec emax x y.
Definition div (x y : double) : double := SFdiv prec emax x y.
Definition ltb (x y : double) : bool := SFltb x y.
Definition eqb (x y : double) : bool := SFeqb x y.

(** [std::ceil]: the least integral value not below [x]; zeros, infinities and
    NaN are returned as they are, and a result that rounds up to zero keeps
    the sign of [x]. *)
Definition ceil (x : double) : double :=
  match x with
  | S754_finite s m e =>
      if 0 <=? e then x
      else binary_normalize prec emax
             (- ((- cond_Zopp s (Zpos m)) / 2 ^ (- e))) 0 s
  | _ => x
  end.

(** [static_cast<int64_t>(x)]: truncation toward zero.  The conversion is
    undefined ([None]) when [x] is NaN, infinite, or when the truncated value
    is not a value of [int64_t]. *)
Definition to_int64 (x : double) : option Z :=
  match x with
  | S754_zero _ => Some 0
  | S754_finite s m e =>
      let v := if 0 <=? e then cond_Zopp s (Zpos m) * 2 ^ e
               else Z.quot (cond_Zopp s (Zpos m)) (2 ^ (- e)) in
      if (Int64.min_signed <=? v) && (v <=? Int64.max_signed) then Some v else None
  | S754_infinity _ | S754_nan => None
  end.
End Double.

(** ** Scalar *)

(** A scalar is a value tagged with its dtype.  The payload of a floating
    point scalar is kept as the [double] with the same value (every [float]
    is one). *)
Inductive Scalar : Type :=
| ScalarBool (v : bool)
| ScalarInt8 (v : Z)
| ScalarInt16 (v : Z)
| ScalarInt32 (v : Z)
| ScalarInt64 (v : Z)
| ScalarUInt8 (v : Z)
| ScalarFloat32 (v : double)
| ScalarFloat64 (v : double).

Module Scalar_.
(** [Scalar::dtype()]. *)
Definition dtype (s : Scalar) : Dtype :=
  match s with
  | ScalarBool _ => Dtype.kBool
  | ScalarInt8 _ => Dtype.kInt8
  | ScalarInt16 _ => Dtype.kInt16
  | ScalarInt32 _ => Dtype.kInt32
  | ScalarInt64 _ => Dtype.kInt64
  | ScalarUInt8 _ => Dtype.kUInt8
  | ScalarFloat32 _ => Dtype.kFloat32
  | ScalarFloat64 _ => Dtype.kFloat64
  end.

(** Reduction of an integer to a signed type of [bits] bits. *)
Definition wrap_signed (bits : Z) (z : Z) : Z :=
  (z + 2 ^ (bits - 1)) mod 2 ^ bits - 2 ^ (bits - 1).

(** Rounding of an integer to [float], given as the [double] of equal value. *)
Definition float_of_Z (z : Z) : double :=
  match binary_normalize 24 128 z 0 false with
  | S754_finite s m e => binary_normalize Double.prec Double.emax (cond_Zopp s (Zpos m)) e s
  | x => x
  end.

(** The implicit conversion of an [int] literal: [Scalar(int32_t)]. *)
Definition of_int (v : Z) : Scalar := ScalarInt32 v.

(** [Scalar{v, dtype}] for an [int] value [v]: the value converted to the C++
    type of [dtype]. *)
Definition of_int_as (v : Z) (dt : Dtype) : Scalar :=
  match dt with
  | Dtype.kBool => ScalarBool (negb (v =? 0))
  | Dtype.kInt8 => ScalarInt8 (wrap_signed 8 v)
  | Dtype.kInt16 => ScalarInt16 (wrap_signed 16 v)
  | Dtype.kInt32 => ScalarInt32 (wrap_signed 32 v)
  | Dtype.kInt64 => ScalarInt64 (wrap_signed 64 v)
  | Dtype.kUInt8 => ScalarUInt8 (v mod 2 ^ 8)
  | Dtype.kFloat32 => ScalarFloat32 (float_of_Z v)
  | Dtype.kFloat64 => ScalarFloat64 (Double.of_Z v)
  end.

(** [Scalar::operator==]: equal dtypes and equal values, floating point
    values being compared as IEEE numbers. *)
Definition eqb (a b : Scalar) : bool :=
  match a, b with
  | ScalarBool x, ScalarBool y => Bool.eqb x y
  | ScalarInt8 x, ScalarInt8 y
  | ScalarInt16 x, ScalarInt16 y
  | ScalarInt32 x, ScalarInt32 y
  | ScalarInt64 x, ScalarInt64 y
  | ScalarUInt8 x, ScalarUInt8 y => x =? y
  | ScalarFloat32 x, ScalarFloat32 y
  | ScalarFloat64 x, ScalarFloat64 y => Double.eqb x y
  | _, _ => false
  end.

(** The payload of a floating point scalar is a number of the format. *)
Definition valid (s : Scalar) : bool :=
  match s with
  | ScalarFloat32 v | ScalarFloat64 v => Double.valid v
  | _ => true
  end.

(** [static_cast<double>(Scalar)]. *)
Definition to_double (s : Scalar) : double :=
  match s with
  | ScalarBool v => Double.of_Z (if v then 1 else 0)
  | ScalarInt8 v | ScalarInt16 v | ScalarInt32 v | ScalarInt64 v
  | ScalarUInt8 v => Double.of_Z v
  | ScalarFloat32 v | ScalarFloat64 v => v
  end.
End Scalar_.

(** ** Array *)

Definition GraphId := string.
Definition BufferId := nat.

(** The derivation history of an array in one graph: the node of the array,
    and the operation that produced it, if any, with the nodes of its
    inputs. *)
Inductive ArrayNode : Type :=
| mkArrayNode (graph_id : GraphId) (next_node : option OpNode)
with OpNode : Type :=
| mkOpNode (name : string) (next_nodes : list ArrayNode).

Record Array : Type := mkArray {
  shape : Shape;
  strides : Strides;
  dtype : Dtype;
  data : BufferId;
  offset : Z;
  nodes : list ArrayNode
}.

(** Modelled from the spec: [internal::MakeArray] of array.h, whose source is
    not available.  It wraps a buffer into "a fresh leaf
    (freshly allocated, no history)" that starts at the beginning of the
    buffer. *)
Definition MakeArray (shape : Shape) (strides : Strides) (dtype : Dtype) (data : BufferId) : Array :=
  mkArray shape strides dtype data 0 [].

Definition Strides_eqb (a b : Strides) : bool :=
  if list_eq_dec Z.eq_dec a b then true else false.

(** Modelled from the spec: [Array::IsContiguous] of array.h, whose source is
    not available.  "An array is contiguous iff its strides
    equal the canonical row-major strides for its shape and dtype." *)
Definition IsContiguous (a : Array) : bool :=
  Strides_eqb (strides a) (Strides_of (shape a) (dtype a)).

(** The multi-indices of a shape, in row-major order. *)
Fixpoint indices (shape : Shape) : list (list Z) :=
  match shape with
  | [] => [[]]
  | d :: rest =>
      flat_map (fun i => map (cons (Z.of_nat i)) (indices rest)) (seq 0 (Z.to_nat d))
  end.

Fixpoint dot (index : list Z) (strides : Strides) : Z :=
  match index, strides with
  | i :: index', s :: strides' => i * s + dot index' strides'
  | _, _ => 0
  end.

(** Byte offset in its buffer of the element of [a] at [index]. *)
Definition element_offset (a : Array) (index : list Z) : Z :=
  offset a + dot index (strides a).

(** ** Device *)

(** What a memory cell holds.  The numeric work of the fill and range kernels
    belongs to the device back end; the value they store is recorded by the
    request that produced it. *)
Inductive Elem : Type :=
| Filled (dtype : Dtype) (value : Scalar)
| Ranged (dtype : Dtype) (start step : Scalar) (i : Z)
| HostValue (value : Scalar).

Definition Buffer := Z -> option Elem.
Definition Memory := BufferId -> Buffer.

Inductive DeviceCall : Type :=
| CallAllocate (bytesize : Z)
| CallFromHostMemory (bytesize : Z)
| CallFill (out : BufferId) (value : Scalar)
| CallArange (start step : Scalar) (out : BufferId).

Record Device : Type := mkDevice {
  calls : list DeviceCall;
  next_buffer : BufferId;
  memory : Memory
}.

Definition store (m : Memory) (b : BufferId) (off : Z) (v : option Elem) : Memory :=
  fun b' off' => if Nat.eqb b' b && (off' =? off) then v else m b' off'.

(** Element of [a] at [index], as found in memory [m]. *)
Definition element (m : Memory) (a : Array) (index : list Z) : option Elem :=
  m (data a) (element_offset a index).

(** Store [f index] into every element of [out]. *)
Definition write_elements (out : Array) (f : list Z -> option Elem) (m : Memory) : Memory :=
  fold_left (fun m' index => store m' (data out) (element_offset out index) (f index))
            (indices (shape out)) m.

(** The requests for memory a device has received. *)
Fixpoint allocation_requests (cs : list DeviceCall) : list Z :=
  match cs with
  | [] => []
  | CallAllocate n :: cs' | CallFromHostMemory n :: cs' => n :: allocation_requests cs'
  | _ :: cs' => allocation_requests cs'
  end.

(** ** Outcomes of a routine *)

Inductive Exception : Type :=
| XchainerError (what : string)
| DtypeError (what : string).

Inductive Outcome (A : Type) : Type :=
| Returned (a : A) (device : Device)
| Thrown (e : Exception) (device : Device)
| AssertionFailed
| UndefinedBehavior.
Arguments Returned {A} a device.
Arguments Thrown {A} e device.
Arguments AssertionFailed {A}.
Arguments UndefinedBehavior {A}.

(** A routine runs on a device: it returns a value, throws, or goes wrong, and
    leaves the device in a new state. *)
Definition M (A : Type) : Type := Device -> Outcome A.

Definition ret {A} (a : A) : M A := fun device => Returned a device.

Definition bind {A B} (c : M A) (k : A -> M B) : M B :=
  fun device =>
    match c device with
    | Returned a device' => k a device'
    | Thrown e device' => Thrown e device'
    | AssertionFailed => AssertionFailed
    | UndefinedBehavior => UndefinedBehavior
    end.

Definition throw {A} (e : Exception) : M A := fun device => Thrown e device.

(** A conversion whose result is not defined makes the routine go wrong. *)
Definition defined {A} (o : option A) : M A :=
  fun device => match o with Some a => Returned a device | None => UndefinedBehavior end.

Definition assert (b : bool) : M unit :=
  fun device => if b then Returned tt device else AssertionFailed.

Declare Scope routine_scope.
Delimit Scope routine_scope with routine.
Notation "x <- c ;; k" := (bind c (fun x => k))
  (at level 61, c at next level, right associativity) : routine_scope.
Notation "c ;;; k" := (bind c (fun _ => k))
  (at level 61, right associativity) : routine_scope.
Local Open Scope routine_scope.

(** ** The device interface *)

Module Device_.
(** Modelled from the spec: [Device::Allocate] of device.h, whose source is
    not available, as the rest of the device.  "[Allocate(byteCount) -> buffer]: fresh,
    uninitialized device memory." *)
Definition Allocate (bytesize : Z) : M BufferId :=
  fun device =>
    let b := next_buffer device in
    Returned b
      (mkDevice (calls device ++ [CallAllocate bytesize]) (S b)
                (fun b' => if Nat.eqb b' b then (fun _ => None) else memory device b')).

(** Modelled from the spec: [Device::FromHostMemory].
    "[IngestHostMemory(hostBuffer, byteCount) -> buffer]: device-resident copy
    of host data", of exactly [bytesize] bytes. *)
Definition FromHostMemory (host : Buffer) (bytesize : Z) : M BufferId :=
  fun device =>
    let b := next_buffer device in
    Returned b
      (mkDevice (calls device ++ [CallFromHostMemory bytesize]) (S b)
                (fun b' => if Nat.eqb b' b
                           then (fun off => if (0 <=? off) && (off <? bytesize) then host off else None)
                           else memory device b')).

(** Modelled from the spec: [Device::Fill], reached through [Array::Fill].
    Every element of [out] receives the fill value, converted to the dtype of
    [out]. *)
Definition Fill (out : Array) (value : Scalar) : M unit :=
  fun device =>
    Returned tt
      (mkDevice (calls device ++ [CallFill (data out) value]) (next_buffer device)
                (write_elements out (fun _ => Some (Filled (dtype out) value)) (memory device))).

(** Modelled from the spec: [Device::Arange].  "[PopulateRange(start, step,
    targetArray)]: fills [targetArray] in place with an arithmetic progression
    beginning at [start] with increment [step]." *)
Definition Arange (start step : Scalar) (out : Array) : M unit :=
  fun device =>
    Returned tt
      (mkDevice (calls device ++ [CallArange start step (data out)]) (next_buffer device)
                (write_elements out
                   (fun index => Some (Ranged (dtype out) start step (hd 0 index)))
                   (memory device))).
End Device_.

(** [Array::Fill]. *)
Definition Array_Fill (a : Array) (value : Scalar) : M unit := Device_.Fill a value.

(** * The routines of creation.cc *)

Module internal.
(** A call of [GetRequiredBytes] inside a routine: its first statement,
    [assert(shape.ndim() == strides.ndim())], stops the routine when the two
    lengths differ; otherwise the call has the value of [GetRequiredBytes]. *)
Definition GetRequiredBytes_call (shape : Shape) (strides : Strides) (element_size : Z) : M Z :=
  assert (Nat.eqb (ndim shape) (ndim strides)) ;;;
  ret (GetRequiredBytes shape strides element_size).

(** [Array FromHostData(const Shape&, Dtype, const std::shared_ptr<void>&,
    const Strides&, Device&)]. *)
Definition FromHostData (shape : Shape) (dtype : Dtype) (data : Buffer) (strides : Strides) : M Array :=
  bytesize <- GetRequiredBytes_call shape strides (SizeT.wrap (GetElementSize dtype)) ;;
  device_data <- Device_.FromHostMemory data bytesize ;;
  ret (MakeArray shape strides dtype device_data).

(** [Array Empty(const Shape&, Dtype, const Strides&, Device&)]. *)
Definition Empty (shape : Shape) (dtype : Dtype) (strides : Strides) : M Array :=
  bytesize <- GetRequiredBytes_call shape strides (SizeT.wrap (GetElementSize dtype)) ;;
  data <- Device_.Allocate bytesize ;;
  ret (MakeArray shape strides dtype data).
End internal.

(** The byte count [Empty(shape, dtype, device)] asks the device for:
    [static_cast<size_t>(shape.GetTotalSize() * GetElementSize(dtype))]. *)
Definition Empty_bytesize (shape : Shape) (dtype : Dtype) : Z :=
  SizeT.wrap (Int64.mul (GetTotalSize shape) (GetElementSize dtype)).

(** [Array Empty(const Shape&, Dtype, Device&)]. *)
Definition Empty (shape : Shape) (dtype : Dtype) : M Array :=
  let bytesize := Empty_bytesize shape dtype in
  data <- Device_.Allocate bytesize ;;
  ret (MakeArray shape (Strides_of shape dtype) dtype data).

(** [Array Full(const Shape&, Scalar, Dtype, Device&)]. *)
Definition Full (shape : Shape) (fill_value : Scalar) (dtype : Dtype) : M Array :=
  array <- Empty shape dtype ;;
  Array_Fill array fill_value ;;;
  ret array.

(** [Array Full(const Shape&, Scalar, Device&)]. *)
Definition Full_scalar (shape : Shape) (fill_value : Scalar) : M Array :=
  Full shape fill_value (Scalar_.dtype fill_value).

(** [Array Zeros(const Shape&, Dtype, Device&)]. *)
Definition Zeros (shape : Shape) (dtype : Dtype) : M Array :=
  Full shape (Scalar_.of_int 0) dtype.

(** [Array Ones(const Shape&, Dtype, Device&)]. *)
Definition Ones (shape : Shape) (dtype : Dtype) : M Array :=
  Full shape (Scalar_.of_int 1) dtype.

(** The three doubles the size of a range is computed from: the conversions
    of [start], [stop] and [step], with [start] and [stop] swapped and the
    step multiplied by -1 when the step is negative. *)
Definition Arange_normalize (start stop step : Scalar) : double * double * double :=
  let d_start := Scalar_.to_double start in
  let d_stop := Scalar_.to_double stop in
  let d_step := Scalar_.to_double step in
  if Double.ltb d_step (Double.of_Z 0)
  then (d_stop, d_start, Double.mul d_step (Double.of_Z (-1)))
  else (d_start, d_stop, d_step).

(** "Compute the size of the output":
    [std::max(int64_t{0}, static_cast<int64_t>(std::ceil((d_stop - d_start) / d_step)))]. *)
Definition Arange_size (start stop step : Scalar) : option Z :=
  let '(d_start, d_stop, d_step) := Arange_normalize start stop step in
  match Double.to_int64 (Double.ceil (Double.div (Double.sub d_stop d_start) d_step)) with
  | Some n => Some (Z.max 0 n)
  | None => None
  end.

(** The two exceptions of [Arange]. *)
Definition zero_step_error : Exception :=
  XchainerError "Cannot create an arange array with 0 step size.".

Definition bool_size_error : Exception :=
  DtypeError "Cannot create an arange array of booleans with size larger than 2.".

(** [Array Arange(Scalar start, Scalar stop, Scalar step, Dtype, Device&)]. *)
Definition Arange (start stop step : Scalar) (dtype : Dtype) : M Array :=
  if Scalar_.eqb step (Scalar_.of_int_as 0 (Scalar_.dtype step))
  then throw zero_step_error
  else
    size <- defined (Arange_size start stop step) ;;
    if (2 <? size) && Dtype.eqb dtype Dtype.kBool
    then throw bool_size_error
    else
      out <- Empty [size] dtype ;;
      Device_.Arange start step out ;;;
      ret out.

(** The dtype [Arange(start, stop, step, device)] resolves to. *)
Definition Arange_inferred_dtype (start stop step : Scalar) : Dtype :=
  let start_stop_any_float :=
    DtypeKind.eqb (GetKind (Scalar_.dtype start)) DtypeKind.kFloat
    || DtypeKind.eqb (GetKind (Scalar_.dtype stop)) DtypeKind.kFloat in
  if start_stop_any_float then Dtype.kFloat64 else Scalar_.dtype step.

(** [Array Arange(Scalar start, Scalar stop, Scalar step, Device&)]. *)
Definition Arange_start_stop_step (start stop step : Scalar) : M Array :=
  Arange start stop step (Arange_inferred_dtype start stop step).

(** [Array Arange(Scalar start, Scalar stop, Dtype, Device&)]. *)
Definition Arange_start_stop_dtype (start stop : Scalar) (dtype : Dtype) : M Array :=
  Arange start stop (Scalar_.of_int 1) dtype.

(** [Array Arange(Scalar stop, Dtype, Device&)]. *)
Definition Arange_stop_dtype (stop : Scalar) (dtype : Dtype) : M Array :=
  Arange (Scalar_.of_int 0) stop (Scalar_.of_int 1) dtype.

(** [Array Arange(Scalar stop, Device&)]. *)
Definition Arange_stop (stop : Scalar) : M Array :=
  Arange (Scalar_.of_int 0) stop (Scalar_.of_int 1) (Scalar_.dtype stop).

(** [Array EmptyLike(const Array&, Device&)]. *)
Definition EmptyLike (a : Array) : M Array := Empty (shape a) (dtype a).

(** [Array FullLike(const Array&, Scalar, Device&)]. *)
Definition FullLike (a : Array) (fill_value : Scalar) : M Array :=
  Full (shape a) fill_value (dtype a).

(** [Array ZerosLike(const Array&, Device&)]. *)
Definition ZerosLike (a : Array) : M Array := Zeros (shape a) (dtype a).

(** [Array OnesLike(const Array&, Device&)]. *)
Definition OnesLike (a : Array) : M Array := Ones (shape a) (dtype a).

(** A device that has received no request yet. *)
Definition fresh_device : Device := mkDevice [] 0%nat (fun _ _ => None).

(** ** The specification's formulas *)

(** [out] has the shape and dtype of the template [a] and the canonical
    row-major layout for them. *)
Definition canonical_like (a out : Array) : Prop :=
  shape out = shape a /\ dtype out = dtype a
  /\ strides out = Strides_of (shape a) (dtype a)
  /\ IsContiguous out = true.

(** A scalar has float kind. *)
Definition has_float_kind (s : Scalar) : Prop :=
  GetKind (Scalar_.dtype s) = DtypeKind.kFloat.

(** A 2 x 2 view of 32-bit integers with a reversed first axis and a padded
    second one. *)
Definition reversed_view : Array :=
  mkArray [2; 2] [-8; 16] Dtype.kInt32 0%nat 8 [].

(** A device that has handed out one buffer, of 32 bytes, holding the four
    elements of [reversed_view]. *)
Definition one_buffer_device : Device :=
  mkDevice [CallFromHostMemory 32] 1%nat
    (fun b off =>
       if Nat.eqb b 0
       then (if off =? 0 then Some (HostValue (ScalarInt32 30))
             else if off =? 8 then Some (HostValue (ScalarInt32 10))
             else if off =? 16 then Some (HostValue (ScalarInt32 40))
             else if off =? 24 then Some (HostValue (ScalarInt32 20))
             else None)
       else None).

(** "If the real step is negative, swap the real start/stop and negate the
    real step." *)
Definition normalized_range (d_start d_stop d_step : double) : double * double * double :=
  if Double.ltb d_step (Double.of_Z 0)
  then (d_stop, d_start, SFopp d_step)
  else (d_start, d_stop, d_step).

(** "[length = max(0, ceil((stop - start) / step))] using the normalized
    values." *)
Definition Arange_length_spec (start stop step : Scalar) : option Z :=
  let '(a, b, s) :=
    normalized_range (Scalar_.to_double start) (Scalar_.to_double stop)
                     (Scalar_.to_double step) in
  option_map (Z.max 0) (Double.to_int64 (Double.ceil (Double.div (Double.sub b a) s))).

(** The value of a scalar is zero: [false], the integer 0, or a floating
    point zero of either sign. *)
Definition is_zero (s : Scalar) : bool :=
  match s with
  | ScalarBool v => negb v
  | ScalarInt8 v | ScalarInt16 v | ScalarInt32 v | ScalarInt64 v
  | ScalarUInt8 v => v =? 0
  | ScalarFloat32 v | ScalarFloat64 v =>
      match v with S754_zero _ => true | _ => false end
  end.

(** [strides] with the sign of its [i]-th entry flipped. *)
Fixpoint flip_stride (i : nat) (strides : Strides) : Strides :=
  match strides, i with
  | [], _ => []
  | s :: rest, O => - s :: rest
  | s :: rest, S i' => s :: flip_stride i' rest
  end.

(** An index lies within a shape. *)
Definition in_bounds (index : list Z) (shape : Shape) : Prop :=
  Forall2 (fun i d => 0 <= i < d) index shape.

(** ** Classes of doubles *)

(** A double is zero or a finite number. *)
Definition finite_double (x : double) : bool :=
  match x with
  | S754_zero _ | S754_finite _ _ _ => true
  | S754_infinity _ | S754_nan => false
  end.

(** A double is a nonzero number: finite and not zero, or infinite. *)
Definition nonzero_double (x : double) : bool :=
  match x with
  | S754_finite _ _ _ | S754_infinity _ => true
  | S754_zero _ | S754_nan => false
  end.

(** A double has its sign bit set (a negative number or the negative zero),
    or is NaN. *)
Definition negative_or_nan (x : double) : bool :=
  match x with
  | S754_zero s | S754_finite s _ _ | S754_infinity s => s
  | S754_nan => true
  end.

(** * Properties *)

(** ** Machine arithmetic *)

Lemma Int64_wrap_eqm z : Int64.wrap z mod 2 ^ 64 = z mod 2 ^ 64.
Proof.
  unfold Int64.wrap, Int64.modulus.
  rewrite Zminus_mod, Z.mod_mod by lia.
  rewrite <- Zminus_mod.
  f_equal. lia.
Qed.

Lemma Int64_wrap_small z : - 2 ^ 63 <= z < 2 ^ 63 -> Int64.wrap z = z.
Proof.
  intros H. unfold Int64.wrap, Int64.modulus.
  rewrite Z.mod_small; lia.
Qed.

Lemma Int64_wrap_range z : - 2 ^ 63 <= Int64.wrap z < 2 ^ 63.
Proof.
  unfold Int64.wrap, Int64.modulus.
  pose proof (Z.mod_pos_bound (z + 2 ^ 63) (2 ^ 64)). lia.
Qed.

Lemma Int64_wrap_eqm_compat x y :
  x mod 2 ^ 64 = y mod 2 ^ 64 -> Int64.wrap x = Int64.wrap y.
Proof.
  intros H. unfold Int64.wrap, Int64.modulus.
  rewrite (Zplus_mod x), H, <- Zplus_mod. reflexivity.
Qed.

Lemma Int64_mul_eqm a b a' b' :
  a mod 2 ^ 64 = a' mod 2 ^ 64 -> b mod 2 ^ 64 = b' mod 2 ^ 64 ->
  Int64.mul a b mod 2 ^ 64 = (a' * b') mod 2 ^ 64.
Proof.
  intros Ha Hb. unfold Int64.mul. rewrite Int64_wrap_eqm.
  rewrite (Zmult_mod a b), Ha, Hb, <- Zmult_mod. reflexivity.
Qed.

Lemma SizeT_wrap_range z : SizeT.in_range (SizeT.wrap z).
Proof.
  unfold SizeT.in_range, SizeT.wrap, SizeT.modulus.
  apply Z.mod_pos_bound. lia.
Qed.

Lemma SizeT_wrap_small z : SizeT.in_range z -> SizeT.wrap z = z.
Proof.
  unfold SizeT.in_range, SizeT.wrap, SizeT.modulus. intros H.
  apply Z.mod_small. exact H.
Qed.

Lemma GetElementSize_pos dt : 1 <= GetElementSize dt <= 8.
Proof. destruct dt; simpl; lia. Qed.

Lemma SizeT_wrap_GetElementSize dt : SizeT.wrap (GetElementSize dt) = GetElementSize dt.
Proof. destruct dt; reflexivity. Qed.

(** ** GetRequiredBytes *)

(** One iteration adds its term modulo [2^64]. *)
Lemma step_eqm sh st acc i :
  internal_bytes.step sh st acc i
  = SizeT.wrap (acc + (at_ sh i - 1) * Z.abs (at_ st i)).
Proof.
  unfold internal_bytes.step, SizeT.add, SizeT.wrap, SizeT.modulus.
  rewrite Zplus_mod_idemp_r.
  rewrite (Zplus_mod acc (Int64.mul _ _)).
  rewrite (Int64_mul_eqm _ _ (at_ sh i - 1) (Z.abs (at_ st i))).
  - rewrite <- Zplus_mod. reflexivity.
  - apply Int64_wrap_eqm.
  - apply Int64_wrap_eqm.
Qed.

Lemma step_cons d sh s st acc i :
  internal_bytes.step (d :: sh) (s :: st) acc (S i) = internal_bytes.step sh st acc i.
Proof. reflexivity. Qed.

Lemma fold_step_cons d sh s st l acc :
  fold_left (internal_bytes.step (d :: sh) (s :: st)) (map S l) acc
  = fold_left (internal_bytes.step sh st) l acc.
Proof.
  revert acc. induction l as [|i l IH]; intros acc; simpl.
  - reflexivity.
  - rewrite step_cons. apply IH.
Qed.

Lemma fold_step_range sh st l acc :
  SizeT.in_range acc -> SizeT.in_range (fold_left (internal_bytes.step sh st) l acc).
Proof.
  revert acc. induction l as [|i l IH]; intros acc Hacc; simpl.
  - exact Hacc.
  - apply IH. rewrite step_eqm. apply SizeT_wrap_range.
Qed.

(** The loop computes the sum of the specification modulo [2^64]. *)
Lemma fold_step_eqm sh st acc :
  ndim sh = ndim st ->
  fold_left (internal_bytes.step sh st) (seq 0 (ndim sh)) acc mod 2 ^ 64
  = (acc + span_sum sh st) mod 2 ^ 64.
Proof.
  unfold ndim. revert st acc.
  induction sh as [|d sh IH]; intros [|s st] acc Hlen; simpl in Hlen; try discriminate.
  - simpl. f_equal. lia.
  - cbn [length seq fold_left span_sum].
    rewrite <- seq_shift, fold_step_cons, IH by lia.
    rewrite step_eqm. unfold SizeT.wrap, SizeT.modulus, at_. cbn [nth].
    rewrite Zplus_mod_idemp_l. f_equal. lia.
Qed.

Lemma GetRequiredBytes_empty sh st es :
  GetTotalSize sh = 0 -> GetRequiredBytes sh st es = 0.
Proof. intros H. unfold GetRequiredBytes. rewrite H. reflexivity. Qed.

Lemma GetRequiredBytes_nonempty sh st es :
  GetTotalSize sh <> 0 -> ndim sh = ndim st -> SizeT.in_range es ->
  GetRequiredBytes sh st es = SizeT.wrap (es + span_sum sh st).
Proof.
  intros Hn Hlen Hes. unfold GetRequiredBytes.
  apply Z.eqb_neq in Hn. rewrite Hn.
  rewrite <- (SizeT_wrap_small (fold_left _ _ _)) by (apply fold_step_range; exact Hes).
  apply fold_step_eqm. exact Hlen.
Qed.

(** The accumulated product is the product of the dimensions modulo [2^64]. *)
Lemma fold_mul_eqm sh acc :
  fold_left Int64.mul sh acc mod 2 ^ 64 = (acc * total_elements sh) mod 2 ^ 64.
Proof.
  revert acc. induction sh as [|d sh IH]; intros acc; simpl.
  - f_equal. unfold total_elements. simpl. lia.
  - rewrite IH. unfold total_elements. cbn [fold_right].
    fold (total_elements sh).
    rewrite Zmult_mod, (Int64_mul_eqm acc d acc d) by reflexivity.
    rewrite <- Zmult_mod. f_equal. lia.
Qed.

Lemma fold_mul_range sh acc :
  - 2 ^ 63 <= acc < 2 ^ 63 -> - 2 ^ 63 <= fold_left Int64.mul sh acc < 2 ^ 63.
Proof.
  revert acc. induction sh as [|d sh IH]; intros acc Hacc; simpl.
  - exact Hacc.
  - apply IH. unfold Int64.mul. apply Int64_wrap_range.
Qed.

Lemma GetTotalSize_wrap sh : GetTotalSize sh = Int64.wrap (total_elements sh).
Proof.
  unfold GetTotalSize.
  rewrite <- (Int64_wrap_small (fold_left _ _ _)) by (apply fold_mul_range; lia).
  apply Int64_wrap_eqm_compat. rewrite fold_mul_eqm. f_equal. lia.
Qed.

Lemma total_elements_zero sh : Exists (fun d => d = 0) sh -> total_elements sh = 0.
Proof.
  unfold total_elements.
  induction 1 as [d sh Hd | d sh _ IH]; simpl.
  - subst d. reflexivity.
  - rewrite IH. lia.
Qed.

Lemma GetTotalSize_zero sh : Exists (fun d => d = 0) sh -> GetTotalSize sh = 0.
Proof.
  intros H. rewrite GetTotalSize_wrap, (total_elements_zero sh H). reflexivity.
Qed.

Lemma total_elements_zero_iff sh :
  total_elements sh = 0 <-> Exists (fun d => d = 0) sh.
Proof.
  split; [|apply total_elements_zero].
  unfold total_elements. induction sh as [|d sh IH]; cbn [fold_right].
  - discriminate.
  - intros H. apply Z.mul_eq_0 in H. destruct H as [H|H].
    + apply Exists_cons_hd. exact H.
    + apply Exists_cons_tl, IH, H.
Qed.

Lemma GetTotalSize_zero_iff sh :
  Int64.in_range (total_elements sh) ->
  GetTotalSize sh = 0 <-> Exists (fun d => d = 0) sh.
Proof.
  unfold Int64.in_range, Int64.min_signed, Int64.max_signed. intros H.
  rewrite GetTotalSize_wrap, Int64_wrap_small by lia.
  apply total_elements_zero_iff.
Qed.

Lemma GetRequiredBytes_exact sh st es :
  GetTotalSize sh <> 0 -> ndim sh = ndim st -> SizeT.in_range es ->
  SizeT.in_range (es + span_sum sh st) ->
  GetRequiredBytes sh st es = es + span_sum sh st.
Proof.
  intros Hn Hlen Hes Hfit.
  rewrite GetRequiredBytes_nonempty by assumption.
  apply SizeT_wrap_small. exact Hfit.
Qed.

(** C1: for a shape and strides of equal ndim, [GetRequiredBytes] returns 0
    when the total element count of the shape is 0, in particular when some
    dimension is 0 (the two are the same when the product of the dimensions
    is an [int64_t] value), whatever the strides; otherwise it returns
    [element_size + Σ_i (shape[i] - 1) * |strides[i]|], as a [size_t]: reduced
    modulo [2^64], hence the sum itself whenever the sum is a [size_t] value;
    for a zero-dimensional shape it returns exactly [element_size]. *)
Theorem GetRequiredBytes_policy (shape : Shape) (strides : Strides) (element_size : Z) :
  ndim shape = ndim strides ->
  SizeT.in_range element_size ->
  (Exists (fun d => d = 0) shape -> GetRequiredBytes shape strides element_size = 0)
  /\ (Int64.in_range (total_elements shape) ->
      GetTotalSize shape = 0 <-> Exists (fun d => d = 0) shape)
  /\ (GetTotalSize shape = 0 -> GetRequiredBytes shape strides element_size = 0)
  /\ (GetTotalSize shape <> 0 ->
      GetRequiredBytes shape strides element_size
      = SizeT.wrap (element_size + span_sum shape strides))
  /\ (GetTotalSize shape <> 0 ->
      SizeT.in_range (element_size + span_sum shape strides) ->
      GetRequiredBytes shape strides element_size
      = element_size + span_sum shape strides)
  /\ (shape = [] -> GetRequiredBytes shape strides element_size = element_size).
Proof.
  intros Hlen Hes. split; [|split; [|split; [|split; [|split]]]].
  - intros Hz. apply GetRequiredBytes_empty, GetTotalSize_zero, Hz.
  - apply GetTotalSize_zero_iff.
  - apply GetRequiredBytes_empty.
  - intros Hn. apply GetRequiredBytes_nonempty; assumption.
  - intros Hn Hfit. apply GetRequiredBytes_exact; assumption.
  - intros ->. reflexivity.
Qed.

Lemma GetRequiredBytes_policy_witness :
  GetRequiredBytes [2; 3] [12; 4] 4 = 24
  /\ GetRequiredBytes [2; 0; 3] [7; -5; 4] 4 = 0
  /\ GetRequiredBytes [] [] 8 = 8.
Proof.
  assert (H4 : SizeT.in_range 4) by (unfold SizeT.in_range, SizeT.modulus; lia).
  assert (H8 : SizeT.in_range 8) by (unfold SizeT.in_range, SizeT.modulus; lia).
  split; [|split].
  - destruct (GetRequiredBytes_policy [2; 3] [12; 4] 4 eq_refl H4) as (_ & _ & _ & _ & H & _).
    apply H.
    + vm_compute. discriminate.
    + unfold SizeT.in_range, SizeT.modulus. simpl. lia.
  - destruct (GetRequiredBytes_policy [2; 0; 3] [7; -5; 4] 4 eq_refl H4) as (H & _).
    apply H. apply Exists_cons_tl, Exists_cons_hd. reflexivity.
  - destruct (GetRequiredBytes_policy [] [] 8 eq_refl H8) as (_ & _ & _ & _ & _ & H).
    apply H. reflexivity.
Defined.

(** ** Direction of the strides *)

Lemma step_abs_ext sh st st' acc i :
  map Z.abs st' = map Z.abs st ->
  internal_bytes.step sh st' acc i = internal_bytes.step sh st acc i.
Proof.
  intros H. unfold internal_bytes.step, Int64.abs, at_.
  assert (E : Z.abs (nth i st' 0) = Z.abs (nth i st 0)).
  { rewrite <- (map_nth Z.abs st' 0 i), <- (map_nth Z.abs st 0 i), H. reflexivity. }
  rewrite E. reflexivity.
Qed.

Lemma GetRequiredBytes_abs_ext sh st st' es :
  map Z.abs st' = map Z.abs st ->
  GetRequiredBytes sh st' es = GetRequiredBytes sh st es.
Proof.
  intros H. unfold GetRequiredBytes.
  destruct (GetTotalSize sh =? 0); [reflexivity|].
  generalize (seq 0 (ndim sh)) as l. intros l. revert es.
  induction l as [|i l IH]; intros es; simpl.
  - reflexivity.
  - rewrite (step_abs_ext sh st st' es i H). apply IH.
Qed.

Lemma flip_stride_abs i st : map Z.abs (flip_stride i st) = map Z.abs st.
Proof.
  revert i. induction st as [|s st IH]; intros [|i]; simpl; try reflexivity.
  - rewrite Z.abs_opp. reflexivity.
  - rewrite IH. reflexivity.
Qed.

(** C6: [GetRequiredBytes] does not change when the sign of a stride is
    flipped: replacing the stride of any axis by its negation, and more
    generally any strides by strides of the same magnitudes, leaves the result
    as it is; shape (4,) with element size 4 needs 16 bytes with stride (-4,)
    as with stride (4,). *)
Theorem GetRequiredBytes_flip_invariant (shape : Shape) (strides : Strides) (element_size : Z) :
  (forall i : nat,
      GetRequiredBytes shape (flip_stride i strides) element_size
      = GetRequiredBytes shape strides element_size)
  /\ (forall strides' : Strides,
         map Z.abs strides' = map Z.abs strides ->
         GetRequiredBytes shape strides' element_size
         = GetRequiredBytes shape strides element_size)
  /\ GetRequiredBytes [4] (flip_stride 0 [4]) 4 = 16
  /\ GetRequiredBytes [4] [4] 4 = 16.
Proof.
  repeat split.
  - intros i. apply GetRequiredBytes_abs_ext, flip_stride_abs.
  - intros st' H. apply GetRequiredBytes_abs_ext, H.
Qed.

Lemma GetRequiredBytes_flip_invariant_witness :
  GetRequiredBytes [2; 3] [-12; 4] 4 = GetRequiredBytes [2; 3] [12; -4] 4.
Proof.
  apply (proj1 (proj2 (GetRequiredBytes_flip_invariant [2; 3] [12; -4] 4)) [-12; 4]).
  reflexivity.
Defined.

(** ** The contiguous layout *)

Lemma dims_zero_or_positive sh :
  Forall (fun d => 0 <= d) sh ->
  Exists (fun d => d = 0) sh \/ Forall (fun d => 1 <= d) sh.
Proof.
  induction 1 as [|d sh Hd _ IH].
  - right. constructor.
  - destruct (Z.eq_dec d 0) as [->|Hnz].
    + left. apply Exists_cons_hd. reflexivity.
    + destruct IH as [IH|IH].
      * left. apply Exists_cons_tl, IH.
      * right. constructor; [lia | exact IH].
Qed.

Lemma total_elements_pos sh : Forall (fun d => 1 <= d) sh -> 1 <= total_elements sh.
Proof.
  unfold total_elements. induction 1 as [|d sh Hd _ IH]; simpl; [lia | nia].
Qed.

(** Without overflow the canonical strides are the exact ones: the running
    stride is the byte size of the axes walked so far, every stride is
    positive, and the span of the layout is its byte size. *)
Lemma strides_from_exact sh es :
  Forall (fun d => 1 <= d) sh -> 1 <= es -> es * total_elements sh < 2 ^ 63 ->
  snd (strides_from sh es) = es * total_elements sh
  /\ es + span_sum sh (fst (strides_from sh es)) = es * total_elements sh
  /\ ndim (fst (strides_from sh es)) = ndim sh.
Proof.
  intros Hsh Hes. induction Hsh as [|d sh Hd Hsh IH]; intros Hfit.
  - simpl. unfold total_elements. simpl. repeat split; lia.
  - pose proof (total_elements_pos sh Hsh) as HT.
    assert (E : total_elements (d :: sh) = d * total_elements sh) by reflexivity.
    rewrite E in *.
    destruct IH as (IH1 & IH2 & IH3); [nia|].
    cbn [strides_from].
    destruct (strides_from sh es) as [st stride]. cbn [fst snd] in *.
    subst stride. cbn [fst snd span_sum ndim length].
    repeat split.
    + unfold Int64.mul. rewrite Int64_wrap_small by nia. ring.
    + rewrite Z.abs_eq by nia. nia.
    + unfold ndim in IH3. rewrite IH3. reflexivity.
Qed.

Lemma GetTotalSize_exact sh :
  - 2 ^ 63 <= total_elements sh < 2 ^ 63 -> GetTotalSize sh = total_elements sh.
Proof. intros H. rewrite GetTotalSize_wrap. apply Int64_wrap_small, H. Qed.

Lemma Empty_bytesize_exact sh dt :
  Forall (fun d => 0 <= d) sh ->
  total_elements sh * GetElementSize dt < 2 ^ 63 ->
  Empty_bytesize sh dt = total_elements sh * GetElementSize dt.
Proof.
  intros Hsh Hfit. pose proof (GetElementSize_pos dt) as Hes.
  unfold Empty_bytesize.
  destruct (dims_zero_or_positive sh Hsh) as [Hz|Hpos].
  - rewrite (GetTotalSize_zero sh Hz), (total_elements_zero sh Hz). reflexivity.
  - pose proof (total_elements_pos sh Hpos) as HT.
    rewrite GetTotalSize_exact by nia.
    unfold Int64.mul. rewrite Int64_wrap_small by nia.
    apply SizeT_wrap_small. unfold SizeT.in_range, SizeT.modulus. nia.
Qed.

Lemma GetRequiredBytes_contiguous sh dt :
  Forall (fun d => 0 <= d) sh ->
  total_elements sh * GetElementSize dt < 2 ^ 63 ->
  GetRequiredBytes sh (Strides_of sh dt) (GetElementSize dt)
  = total_elements sh * GetElementSize dt.
Proof.
  intros Hsh Hfit. pose proof (GetElementSize_pos dt) as Hes.
  destruct (dims_zero_or_positive sh Hsh) as [Hz|Hpos].
  - rewrite (GetRequiredBytes_empty sh _ _ (GetTotalSize_zero sh Hz)).
    rewrite (total_elements_zero sh Hz). reflexivity.
  - pose proof (total_elements_pos sh Hpos) as HT.
    destruct (strides_from_exact sh (GetElementSize dt) Hpos) as (_ & Hsum & Hlen);
      [lia | lia |].
    unfold Strides_of, Strides_of_size.
    rewrite GetRequiredBytes_exact.
    + rewrite Hsum. ring.
    + rewrite GetTotalSize_exact by nia. lia.
    + symmetry. exact Hlen.
    + unfold SizeT.in_range, SizeT.modulus. lia.
    + rewrite Hsum. unfold SizeT.in_range, SizeT.modulus. nia.
Qed.

(** C5: the default allocation path asks the device for exactly one buffer,
    of [total element count * element size] bytes, and this closed form is
    [GetRequiredBytes] at the canonical row-major strides of the shape and
    element size.  The shape has non-negative dimensions and its byte size is
    an [int64_t] value. *)
Theorem Empty_requests_contiguous_bytes (shape : Shape) (dtype : Dtype) (device : Device) :
  Forall (fun d => 0 <= d) shape ->
  total_elements shape * GetElementSize dtype < 2 ^ 63 ->
  (exists out device',
      Empty shape dtype device = Returned out device'
      /\ calls device'
         = calls device ++ [CallAllocate (total_elements shape * GetElementSize dtype)])
  /\ total_elements shape * GetElementSize dtype
     = GetRequiredBytes shape (Strides_of shape dtype) (GetElementSize dtype).
Proof.
  intros Hsh Hfit. split.
  - unfold Empty, bind, Device_.Allocate, ret.
    eexists _, _. split; [reflexivity|].
    cbn [calls]. rewrite Empty_bytesize_exact by assumption. reflexivity.
  - symmetry. apply GetRequiredBytes_contiguous; assumption.
Qed.

Lemma Empty_requests_contiguous_bytes_witness :
  2 * 3 * 4 = GetRequiredBytes [2; 3] (Strides_of [2; 3] Dtype.kInt32) 4.
Proof.
  refine (proj2 (Empty_requests_contiguous_bytes [2; 3] Dtype.kInt32
                   (mkDevice [] 0%nat (fun _ _ => None)) _ _)).
  - repeat constructor; lia.
  - vm_compute. reflexivity.
Defined.

(** ** Arithmetic of doubles *)

Lemma iter_pos_nat {A} (f : A -> A) p x : iter_pos f p x = Nat.iter (Pos.to_nat p) f x.
Proof.
  revert x. induction p as [p IH|p IH|]; intros x; cbn [iter_pos].
  - rewrite !IH, Pos2Nat.inj_xI.
    replace (S (2 * Pos.to_nat p))%nat with (Pos.to_nat p + (Pos.to_nat p + 1))%nat by lia.
    rewrite !Nat.iter_add. simpl. reflexivity.
  - rewrite !IH, Pos2Nat.inj_xO.
    replace (2 * Pos.to_nat p)%nat with (Pos.to_nat p + Pos.to_nat p)%nat by lia.
    rewrite Nat.iter_add. reflexivity.
  - reflexivity.
Qed.

(** Appending [n] zero bits to a mantissa adds [n] to its number of digits,
    and [n] right shifts remove them without a remainder. *)
Lemma digits2_shift n m :
  Zpos (digits2_pos (Nat.iter n xO m)) = Zpos (digits2_pos m) + Z.of_nat n.
Proof.
  induction n as [|n IH].
  - simpl. lia.
  - change (Nat.iter (S n) xO m) with (xO (Nat.iter n xO m)).
    cbn [digits2_pos]. rewrite Pos2Z.inj_succ, IH. lia.
Qed.

Lemma shr_1_shift n m :
  Nat.iter n shr_1 (Build_shr_record (Zpos (Nat.iter n xO m)) false false)
  = Build_shr_record (Zpos m) false false.
Proof.
  induction n as [|n IH].
  - reflexivity.
  - rewrite Nat.iter_succ_r.
    change (Nat.iter (S n) xO m) with (xO (Nat.iter n xO m)).
    cbn [shr_1 orb]. exact IH.
Qed.

Lemma shr_fexp_shift m e :
  fexp Double.prec Double.emax (Z.pos (digits2_pos m) + e) = e ->
  shr_fexp Double.prec Double.emax (Z.pos (Nat.iter 52 xO m)) (e + -52) loc_Exact
  = (Build_shr_record (Zpos m) false false, e).
Proof.
  intros Hc. unfold shr_fexp, Zdigits2.
  rewrite digits2_shift.
  replace (Z.pos (digits2_pos m) + Z.of_nat 52 + (e + -52))
    with (Z.pos (digits2_pos m) + e) by lia.
  rewrite Hc.
  replace (e - (e + -52)) with (Zpos 52) by lia.
  unfold shr, shr_record_of_loc.
  rewrite iter_pos_nat.
  change (Pos.to_nat 52) with 52%nat.
  rewrite shr_1_shift. f_equal. lia.
Qed.

Lemma shr_fexp_canonical m e :
  fexp Double.prec Double.emax (Z.pos (digits2_pos m) + e) = e ->
  shr_fexp Double.prec Double.emax (Z.pos m) e loc_Exact
  = (Build_shr_record (Zpos m) false false, e).
Proof.
  intros Hc. unfold shr_fexp, Zdigits2. rewrite Hc, Z.sub_diag. reflexivity.
Qed.

(** [x * -1] is [x] with its sign flipped, exactly. *)
Lemma mul_minus_one_finite s m e :
  Double.valid (S754_finite s m e) = true ->
  Double.mul (S754_finite s m e) (Double.of_Z (-1)) = S754_finite (negb s) m e.
Proof.
  unfold Double.valid, valid_binary, bounded, canonical_mantissa.
  intros H. apply andb_prop in H. destruct H as [Hc Hb].
  apply Z.eqb_eq in Hc.
  change (Double.of_Z (-1)) with (S754_finite true (Nat.iter 52 xO 1%positive) (-52)).
  unfold Double.mul, SFmul.
  rewrite Pos.mul_comm.
  change (Nat.iter 52 xO 1 * m)%positive with (Nat.iter 52 xO m).
  unfold binary_round_aux.
  rewrite (shr_fexp_shift m e Hc).
  cbn [shr_m loc_of_shr_record round_nearest_even].
  rewrite (shr_fexp_canonical m e Hc).
  cbn [shr_m]. rewrite Hb.
  destruct s; reflexivity.
Qed.

Lemma mul_minus_one x :
  Double.valid x = true -> Double.mul x (Double.of_Z (-1)) = SFopp x.
Proof.
  destruct x as [s|s| |s m e]; intros H.
  - destruct s; reflexivity.
  - destruct s; reflexivity.
  - reflexivity.
  - apply mul_minus_one_finite, H.
Qed.

Lemma div_zero_undefined x s :
  Double.to_int64 (Double.ceil (Double.div x (S754_zero s))) = None.
Proof. destruct x as [sx|sx| |sx m e]; reflexivity. Qed.

Lemma div_nan_undefined x :
  Double.to_int64 (Double.ceil (Double.div x S754_nan)) = None.
Proof. destruct x as [sx|sx| |sx m e]; reflexivity. Qed.

(** ** Conversion of integers to double *)

Lemma digits2_log2 p : Zpos (digits2_pos p) = Z.log2 (Zpos p) + 1.
Proof.
  induction p as [p IH|p IH|]; cbn [digits2_pos].
  - rewrite Pos2Z.inj_succ, IH, Pos2Z.inj_xI, Z.log2_succ_double by lia. lia.
  - rewrite Pos2Z.inj_succ, IH, Pos2Z.inj_xO, Z.log2_double by lia. lia.
  - reflexivity.
Qed.

Lemma digits2_bounds p :
  2 ^ (Zpos (digits2_pos p) - 1) <= Zpos p < 2 ^ Zpos (digits2_pos p).
Proof.
  rewrite digits2_log2.
  pose proof (Z.log2_spec (Zpos p) ltac:(lia)) as H.
  replace (Z.log2 (Zpos p) + 1 - 1) with (Z.log2 (Zpos p)) by lia.
  replace (Z.log2 (Zpos p) + 1) with (Z.succ (Z.log2 (Zpos p))) by lia.
  exact H.
Qed.

Lemma Zdigits2_unique z k : 1 <= k -> 2 ^ (k - 1) <= z < 2 ^ k -> Zdigits2 z = k.
Proof.
  intros Hk Hz.
  assert (0 < 2 ^ (k - 1)) by (apply Z.pow_pos_nonneg; lia).
  destruct z as [|p|p]; try lia.
  cbn [Zdigits2]. rewrite digits2_log2.
  rewrite (Z.log2_unique (Zpos p) (k - 1)); [lia | lia |].
  replace (Z.succ (k - 1)) with k by lia. exact Hz.
Qed.

Lemma shr_1_m mrs : 0 <= shr_m mrs -> shr_m (shr_1 mrs) = shr_m mrs / 2.
Proof.
  destruct mrs as [m r s]. cbn [shr_m]. intros Hm.
  destruct m as [|p|p]; [reflexivity | | lia].
  destruct p as [p|p|]; cbn [shr_1 shr_m].
  - rewrite Pos2Z.inj_xI. apply Z.div_unique with 1; lia.
  - rewrite Pos2Z.inj_xO. apply Z.div_unique with 0; lia.
  - reflexivity.
Qed.

Lemma iter_shr_m n mrs :
  0 <= shr_m mrs -> shr_m (Nat.iter n shr_1 mrs) = shr_m mrs / 2 ^ Z.of_nat n.
Proof.
  intros Hm. induction n as [|n IH].
  - cbn. rewrite Z.div_1_r. reflexivity.
  - cbn [Nat.iter nat_rect]. change (nat_rect _ mrs (fun _ => shr_1) n) with (Nat.iter n shr_1 mrs).
    rewrite shr_1_m, IH.
    + rewrite Z.div_div by lia. f_equal. rewrite Nat2Z.inj_succ, Z.pow_succ_r; lia.
    + rewrite IH. apply Z.div_pos; [exact Hm | apply Z.pow_pos_nonneg; lia].
Qed.

Lemma round_nearest_even_cases m l :
  round_nearest_even m l = m \/ round_nearest_even m l = m + 1.
Proof.
  destruct l as [|[ | | ]]; cbn; auto. destruct (Z.even m); auto.
Qed.

(** The first shift of the rounding of a mantissa of at least 53 digits leaves
    exactly 53 of them. *)
Lemma shr_fexp_normal mx ex :
  53 <= Zpos (digits2_pos mx) -> -1074 <= Zpos (digits2_pos mx) + ex - 53 ->
  exists mrs,
    shr_fexp 53 1024 (Zpos mx) ex loc_Exact = (mrs, Zpos (digits2_pos mx) + ex - 53)
    /\ 2 ^ 52 <= shr_m mrs < 2 ^ 53.
Proof.
  intros HD HE. pose proof (digits2_bounds mx) as Hmx.
  set (D := Zpos (digits2_pos mx)) in *.
  assert (Hm : 2 ^ 52 <= Zpos mx / 2 ^ (D - 53) < 2 ^ 53).
  { assert (0 < 2 ^ (D - 53)) by (apply Z.pow_pos_nonneg; lia).
    split.
    - apply Z.div_le_lower_bound; [lia|].
      rewrite <- Z.pow_add_r by lia. replace (D - 53 + 52) with (D - 1) by lia. lia.
    - apply Z.div_lt_upper_bound; [lia|].
      rewrite <- Z.pow_add_r by lia. replace (D - 53 + 53) with D by lia. lia. }
  unfold shr_fexp, Zdigits2, fexp, emin. fold D.
  rewrite Z.max_l by lia.
  replace (D + ex - 53 - ex) with (D - 53) by lia.
  unfold shr, shr_record_of_loc.
  destruct (D - 53) as [|p|p] eqn:E; [| |lia].
  - eexists. split; [f_equal; lia|]. cbn [shr_m]. rewrite Z.div_1_r in Hm. exact Hm.
  - eexists. split; [f_equal; lia|].
    rewrite iter_pos_nat, iter_shr_m by (cbn; lia).
    cbn [shr_m]. rewrite positive_nat_Z. exact Hm.
Qed.

Lemma binary_round_aux_valid sx mx ex :
  53 <= Zpos (digits2_pos mx) -> -1074 <= Zpos (digits2_pos mx) + ex - 53 ->
  valid_binary 53 1024 (binary_round_aux 53 1024 sx (Zpos mx) ex loc_Exact) = true.
Proof.
  intros HD HE.
  destruct (shr_fexp_normal mx ex HD HE) as (mrs & Hshr & Hm).
  unfold binary_round_aux. rewrite Hshr.
  set (E := Zpos (digits2_pos mx) + ex - 53) in *.
  set (m2 := round_nearest_even (shr_m mrs) (loc_of_shr_record mrs)).
  assert (Hm2 : 2 ^ 52 <= m2 < 2 ^ 53 \/ m2 = 2 ^ 53).
  { destruct (round_nearest_even_cases (shr_m mrs) (loc_of_shr_record mrs)) as [H|H];
      fold m2 in H; lia. }
  destruct Hm2 as [Hm2|Hm2].
  - unfold shr_fexp. rewrite (Zdigits2_unique m2 53) by lia.
    unfold fexp, emin. rewrite Z.max_l by lia.
    replace (53 + E - 53 - E) with 0 by lia.
    cbn [shr shr_record_of_loc shr_m].
    destruct m2 as [|q|q] eqn:Eq; try lia.
    destruct (E <=? 1024 - 53) eqn:Eb; [|reflexivity].
    cbn [valid_binary]. unfold bounded, canonical_mantissa. rewrite Eb, andb_true_r.
    change (Zpos (digits2_pos q)) with (Zdigits2 (Zpos q)).
    rewrite (Zdigits2_unique (Zpos q) 53) by lia.
    unfold fexp, emin. apply Z.eqb_eq. lia.
  - rewrite Hm2. unfold shr_fexp.
    change (Zdigits2 (2 ^ 53)) with 54.
    unfold fexp, emin. rewrite Z.max_l by lia.
    replace (54 + E - 53 - E) with 1 by lia.
    cbn [shr shr_record_of_loc shr_m iter_pos].
    change (shr_m (shr_1 {| shr_m := 2 ^ 53; shr_r := false; shr_s := false |}))
      with (Zpos (2 ^ 52)).
    cbv iota.
    destruct (E + 1 <=? 1024 - 53) eqn:Eb; [|reflexivity].
    cbn [valid_binary]. unfold bounded, canonical_mantissa. rewrite Eb, andb_true_r.
    change (Zpos (digits2_pos (2 ^ 52))) with 53.
    unfold fexp, emin. apply Z.eqb_eq. lia.
Qed.

Lemma digits2_pos_iter p d :
  Zpos (digits2_pos (Pos.iter xO p d)) = Zpos (digits2_pos p) + Zpos d.
Proof.
  rewrite Pos2Nat.inj_iter.
  change (nat_rect (fun _ => positive) p (fun _ => xO) (Pos.to_nat d))
    with (Nat.iter (Pos.to_nat d) xO p).
  rewrite digits2_shift, positive_nat_Z. reflexivity.
Qed.

Lemma of_Z_valid z : Double.valid (Double.of_Z z) = true.
Proof.
  unfold Double.valid, Double.of_Z, binary_normalize, Double.prec, Double.emax.
  assert (H : forall sx mx, valid_binary 53 1024 (binary_round 53 1024 sx mx 0) = true).
  { intros sx mx. unfold binary_round, shl_align.
    unfold fexp, emin. rewrite !Z.add_0_r.
    pose proof (Pos2Z.is_pos (digits2_pos mx)) as HD.
    rewrite !Z.max_l by lia. rewrite Z.sub_0_r.
    destruct (Zpos (digits2_pos mx) - 53) as [|p|p] eqn:E.
    - apply binary_round_aux_valid; lia.
    - apply binary_round_aux_valid; lia.
    - pose proof (Pos2Z.opp_pos p) as Hp.
      apply binary_round_aux_valid; rewrite digits2_pos_iter; lia. }
  destruct z; [reflexivity | apply H | apply H].
Qed.

Lemma to_double_valid s : Scalar_.valid s = true -> Double.valid (Scalar_.to_double s) = true.
Proof.
  destruct s; cbn [Scalar_.valid Scalar_.to_double]; intros H;
    try apply of_Z_valid; exact H.
Qed.

(** ** Arange: the size of the output *)

Lemma Arange_normalize_spec start stop step :
  Double.valid (Scalar_.to_double step) = true ->
  Arange_normalize start stop step
  = normalized_range (Scalar_.to_double start) (Scalar_.to_double stop)
                     (Scalar_.to_double step).
Proof.
  intros Hv. unfold Arange_normalize, normalized_range.
  rewrite (mul_minus_one _ Hv). reflexivity.
Qed.

Lemma Arange_size_spec start stop step :
  Double.valid (Scalar_.to_double step) = true ->
  Arange_size start stop step = Arange_length_spec start stop step.
Proof.
  intros Hv. unfold Arange_size, Arange_length_spec.
  rewrite (Arange_normalize_spec _ _ _ Hv).
  destruct (normalized_range _ _ _) as [[a b] s].
  destruct (Double.to_int64 _); reflexivity.
Qed.

Lemma valid_opp x : Double.valid (SFopp x) = Double.valid x.
Proof. destruct x; reflexivity. Qed.

(** The length of the spec does not depend on the direction of the range. *)
Lemma Arange_length_spec_symmetric start stop step step' :
  Scalar_.to_double step' = SFopp (Scalar_.to_double step) ->
  Arange_length_spec stop start step' = Arange_length_spec start stop step.
Proof.
  intros E. unfold Arange_length_spec, normalized_range. rewrite E.
  destruct (Scalar_.to_double step) as [s|s| |s m e].
  - cbn [SFopp]. change (Double.ltb (S754_zero _) (Double.of_Z 0)) with false.
    cbv iota. rewrite !div_zero_undefined. reflexivity.
  - destruct s; reflexivity.
  - cbn [SFopp]. change (Double.ltb S754_nan (Double.of_Z 0)) with false.
    cbv iota. rewrite !div_nan_undefined. reflexivity.
  - destruct s; reflexivity.
Qed.

(** ** Arange: validation and allocation *)

(** The test of the source, [step == Scalar{0, step.dtype()}], holds exactly
    when the value of [step] is zero. *)
Lemma zero_step_test step :
  Scalar_.eqb step (Scalar_.of_int_as 0 (Scalar_.dtype step)) = is_zero step.
Proof.
  destruct step as [v|v|v|v|v|v|v|v]; cbn [Scalar_.dtype Scalar_.of_int_as is_zero].
  - destruct v; reflexivity.
  - reflexivity.
  - reflexivity.
  - reflexivity.
  - reflexivity.
  - reflexivity.
  - destruct v as [s|s| |s m e]; try reflexivity; destruct s; reflexivity.
  - destruct v as [s|s| |s m e]; try reflexivity; destruct s; reflexivity.
Qed.

Lemma Arange_zero_step start stop step dt device :
  is_zero step = true ->
  Arange start stop step dt device = Thrown zero_step_error device.
Proof.
  intros Hz. unfold Arange. rewrite zero_step_test, Hz. reflexivity.
Qed.

(** What [Arange] does once the step is known not to be zero. *)
Lemma Arange_nonzero_step start stop step dt device :
  is_zero step = false ->
  Arange start stop step dt device
  = match Arange_size start stop step with
    | None => UndefinedBehavior
    | Some size =>
        if (2 <? size) && Dtype.eqb dt Dtype.kBool
        then Thrown bool_size_error device
        else (out <- Empty [size] dt ;; Device_.Arange start step out ;;; ret out) device
    end.
Proof.
  intros Hz. unfold Arange. rewrite zero_step_test, Hz.
  unfold bind at 1, defined.
  destruct (Arange_size start stop step) as [size|]; [|reflexivity].
  destruct ((2 <? size) && Dtype.eqb dt Dtype.kBool); reflexivity.
Qed.

(** A throwing [Arange] leaves the device as it found it. *)
Lemma Arange_thrown_device start stop step dt device e device' :
  Arange start stop step dt device = Thrown e device' ->
  device' = device
  /\ (e = zero_step_error /\ is_zero step = true
      \/ e = bool_size_error /\ is_zero step = false /\ dt = Dtype.kBool
         /\ exists size, Arange_size start stop step = Some size /\ 2 < size).
Proof.
  destruct (is_zero step) eqn:Hz.
  - rewrite (Arange_zero_step _ _ _ _ _ Hz). intros H. inversion H. subst.
    split; [reflexivity|]. left. split; reflexivity.
  - rewrite (Arange_nonzero_step _ _ _ _ _ Hz).
    destruct (Arange_size start stop step) as [size|]; [|discriminate].
    destruct ((2 <? size) && Dtype.eqb dt Dtype.kBool) eqn:Hb.
    + intros H. inversion H. subst.
      apply andb_prop in Hb. destruct Hb as [Hsize Hdt].
      split; [reflexivity|]. right. repeat split.
      * destruct dt; try discriminate. reflexivity.
      * exists size. split; [reflexivity|]. apply Z.ltb_lt, Hsize.
    + unfold bind, Empty, Device_.Allocate, Device_.Arange, ret. cbn. discriminate.
Qed.

(** A returning [Arange] has asked the device for one buffer, and its array
    has the computed size, the requested dtype and the canonical strides. *)
Lemma Arange_returned start stop step dt device out device' :
  Arange start stop step dt device = Returned out device' ->
  exists size,
    Arange_size start stop step = Some size
    /\ is_zero step = false
    /\ shape out = [size] /\ dtype out = dt
    /\ strides out = Strides_of [size] dt
    /\ allocation_requests (calls device')
       = allocation_requests (calls device) ++ [Empty_bytesize [size] dt].
Proof.
  destruct (is_zero step) eqn:Hz.
  - rewrite (Arange_zero_step _ _ _ _ _ Hz). discriminate.
  - rewrite (Arange_nonzero_step _ _ _ _ _ Hz).
    destruct (Arange_size start stop step) as [size|]; [|discriminate].
    destruct ((2 <? size) && Dtype.eqb dt Dtype.kBool); [discriminate|].
    unfold bind, Empty, Device_.Allocate, Device_.Arange, ret. cbn.
    intros H. inversion H. subst. exists size. cbn.
    repeat split.
    rewrite <- app_assoc. cbn.
    induction (calls device) as [|c cs IH]; [reflexivity|].
    destruct c; cbn; rewrite ?IH; reflexivity.
Qed.

(** [Arange] returns whenever its validation passes. *)
Lemma Arange_returns start stop step dt device size :
  is_zero step = false ->
  Arange_size start stop step = Some size ->
  (2 <? size) && Dtype.eqb dt Dtype.kBool = false ->
  exists out device', Arange start stop step dt device = Returned out device'.
Proof.
  intros Hz Hsize Hb.
  rewrite (Arange_nonzero_step _ _ _ _ _ Hz), Hsize, Hb.
  unfold bind, Empty, Device_.Allocate, Device_.Arange, ret. cbn.
  eexists _, _. reflexivity.
Qed.

(** C7: whatever [start], [stop] and the dtype are, an [Arange] request whose
    step is zero fails with the error of the zero step check (an
    [XchainerError], the invalid argument error of the routines), and it fails
    before any request reaches the device: the device is left in the state it
    was in.  The same holds when the dtype is inferred. *)
Theorem Arange_zero_step_rejected (start stop step : Scalar) (dtype : Dtype) (device : Device) :
  is_zero step = true ->
  Arange start stop step dtype device
  = Thrown (XchainerError "Cannot create an arange array with 0 step size.") device
  /\ Arange_start_stop_step start stop step device
     = Thrown (XchainerError "Cannot create an arange array with 0 step size.") device.
Proof.
  intros Hz. split.
  - apply Arange_zero_step, Hz.
  - unfold Arange_start_stop_step. apply Arange_zero_step, Hz.
Qed.

Lemma Arange_zero_step_rejected_witness :
  Arange (ScalarInt32 0) (ScalarInt32 10) (ScalarFloat64 (S754_zero true)) Dtype.kFloat64
         fresh_device
  = Thrown (XchainerError "Cannot create an arange array with 0 step size.") fresh_device.
Proof.
  refine (proj1 (Arange_zero_step_rejected (ScalarInt32 0) (ScalarInt32 10)
                   (ScalarFloat64 (S754_zero true)) Dtype.kFloat64 fresh_device _)).
  reflexivity.
Defined.

(** C8: an [Arange] request with a nonzero step, the boolean dtype and a
    computed length above 2 fails with the error of the boolean length check
    (a [DtypeError], the domain error of the routines).  Both checks of
    [Arange] come before its allocation: whenever [Arange] throws, for any
    arguments, the error is one of the two and the device is left in the state
    it was in, so no allocation was requested. *)
Theorem Arange_bool_length_rejected (start stop step : Scalar) (device : Device) (size : Z) :
  is_zero step = false ->
  Arange_size start stop step = Some size ->
  2 < size ->
  Arange start stop step Dtype.kBool device
  = Thrown (DtypeError "Cannot create an arange array of booleans with size larger than 2.")
           device
  /\ (forall start' stop' step' dtype' device0 e device',
         Arange start' stop' step' dtype' device0 = Thrown e device' ->
         device' = device0
         /\ allocation_requests (calls device') = allocation_requests (calls device0)
         /\ (e = zero_step_error \/ e = bool_size_error)).
Proof.
  intros Hz Hsize Hlt. split.
  - rewrite (Arange_nonzero_step _ _ _ _ _ Hz), Hsize.
    apply Z.ltb_lt in Hlt. rewrite Hlt. reflexivity.
  - intros start' stop' step' dtype' device0 e device' H.
    destruct (Arange_thrown_device _ _ _ _ _ _ _ H) as [-> He].
    repeat split. destruct He as [[-> _]|[-> _]]; [left|right]; reflexivity.
Qed.

Lemma Arange_bool_length_rejected_witness :
  Arange_stop_dtype (ScalarInt32 5) Dtype.kBool fresh_device
  = Thrown (DtypeError "Cannot create an arange array of booleans with size larger than 2.")
           fresh_device.
Proof.
  refine (proj1 (Arange_bool_length_rejected (ScalarInt32 0) (ScalarInt32 5) (ScalarInt32 1)
                   fresh_device 5 _ _ _)).
  - reflexivity.
  - vm_compute. reflexivity.
  - lia.
Defined.

(** C2: for an [Arange] request with a nonzero step, the length of the output
    is [max(0, ceil((stop - start) / step))] over the normalized doubles: when
    the step is negative, [start] and [stop] are swapped and the step negated.
    [Arange] returns an array of that length whenever the length is defined
    and passes the boolean check, and every array it returns has that length.
    The length is direction-symmetric: the range from [stop] to [start] by the
    opposite step has the same length; [Arange(0, 10, 3)] and
    [Arange(10, 0, -3)] both have length 4.  A floating point step is a
    number of the binary64 format, as every [double] is. *)
Theorem Arange_length_normalized (start stop step : Scalar) :
  is_zero step = false ->
  Scalar_.valid step = true ->
  Arange_size start stop step = Arange_length_spec start stop step
  /\ (forall dtype device out device',
         Arange start stop step dtype device = Returned out device' ->
         exists n, Arange_length_spec start stop step = Some n /\ shape out = [n])
  /\ (forall dtype device n,
         Arange_length_spec start stop step = Some n ->
         (2 <? n) && Dtype.eqb dtype Dtype.kBool = false ->
         exists out device',
           Arange start stop step dtype device = Returned out device' /\ shape out = [n])
  /\ (forall step',
         Scalar_.to_double step' = SFopp (Scalar_.to_double step) ->
         Arange_size stop start step' = Arange_size start stop step)
  /\ Arange_size (ScalarInt32 0) (ScalarInt32 10) (ScalarInt32 3) = Some 4
  /\ Arange_size (ScalarInt32 10) (ScalarInt32 0) (ScalarInt32 (-3)) = Some 4.
Proof.
  intros Hz Hvs. pose proof (to_double_valid step Hvs) as Hv.
  pose proof (Arange_size_spec start stop step Hv) as Hspec.
  split; [exact Hspec|]. split; [|split; [|split; [|split]]].
  - intros dt device out device' H.
    destruct (Arange_returned _ _ _ _ _ _ _ H) as (n & Hn & _ & Hshape & _).
    exists n. rewrite <- Hspec. split; assumption.
  - intros dt device n Hn Hb. rewrite <- Hspec in Hn.
    destruct (Arange_returns start stop step dt device n Hz Hn Hb) as (out & device' & H).
    exists out, device'. split; [exact H|].
    destruct (Arange_returned _ _ _ _ _ _ _ H) as (n' & Hn' & _ & Hshape & _).
    rewrite Hn in Hn'. inversion Hn'. subst n'. exact Hshape.
  - intros step' E.
    rewrite Hspec, (Arange_size_spec stop start step').
    + apply Arange_length_spec_symmetric, E.
    + rewrite E, valid_opp. exact Hv.
  - vm_compute. reflexivity.
  - vm_compute. reflexivity.
Qed.

Lemma Arange_length_normalized_witness :
  Arange_size (ScalarInt32 10) (ScalarInt32 0) (ScalarInt32 (-3))
  = Arange_length_spec (ScalarInt32 10) (ScalarInt32 0) (ScalarInt32 (-3)).
Proof.
  refine (proj1 (Arange_length_normalized (ScalarInt32 10) (ScalarInt32 0)
                   (ScalarInt32 (-3)) _ _)).
  - reflexivity.
  - reflexivity.
Defined.

(** ** Arange: the inferred dtype *)

Lemma Arange_inferred_dtype_float start stop step :
  has_float_kind start \/ has_float_kind stop ->
  Arange_inferred_dtype start stop step = Dtype.kFloat64.
Proof.
  unfold has_float_kind, Arange_inferred_dtype.
  intros [H|H]; rewrite H; cbn [DtypeKind.eqb orb].
  - reflexivity.
  - rewrite orb_true_r. reflexivity.
Qed.

Lemma Arange_inferred_dtype_step start stop step :
  ~ has_float_kind start -> ~ has_float_kind stop ->
  Arange_inferred_dtype start stop step = Scalar_.dtype step.
Proof.
  unfold has_float_kind, Arange_inferred_dtype. intros H1 H2.
  destruct (GetKind (Scalar_.dtype start)); try (exfalso; apply H1; reflexivity);
    destruct (GetKind (Scalar_.dtype stop)); try (exfalso; apply H2; reflexivity);
    reflexivity.
Qed.

Lemma Arange_returned_dtype start stop step dt device out device' :
  Arange start stop step dt device = Returned out device' -> dtype out = dt.
Proof.
  intros H. destruct (Arange_returned _ _ _ _ _ _ _ H) as (n & _ & _ & _ & Hdt & _).
  exact Hdt.
Qed.

(** C3, as the code has it: [Arange(start, stop, step, device)] resolves the
    dtype to the 64-bit float dtype when [start] or [stop] has float kind and
    to the dtype of [step] otherwise; [Arange(stop, device)], where [start] is
    0 and [step] is 1, resolves it to the dtype of [stop]. *)
Theorem Arange_dtype_resolution (start stop step : Scalar) (device : Device) :
  (forall out device',
      Arange_start_stop_step start stop step device = Returned out device' ->
      (has_float_kind start \/ has_float_kind stop -> dtype out = Dtype.kFloat64)
      /\ (~ has_float_kind start -> ~ has_float_kind stop ->
          dtype out = Scalar_.dtype step))
  /\ (has_float_kind start \/ has_float_kind stop ->
      Arange_start_stop_step start stop step device
      = Arange start stop step Dtype.kFloat64 device)
  /\ (~ has_float_kind start -> ~ has_float_kind stop ->
      Arange_start_stop_step start stop step device
      = Arange start stop step (Scalar_.dtype step) device)
  /\ Arange_stop stop device
     = Arange (ScalarInt32 0) stop (ScalarInt32 1) (Scalar_.dtype stop) device
  /\ (forall out device',
         Arange_stop stop device = Returned out device' ->
         dtype out = Scalar_.dtype stop).
Proof.
  split; [|split; [|split; [|split]]].
  - intros out device' H. unfold Arange_start_stop_step in H.
    apply Arange_returned_dtype in H. split.
    + intros Hf. rewrite H. apply Arange_inferred_dtype_float, Hf.
    + intros H1 H2. rewrite H. apply Arange_inferred_dtype_step; assumption.
  - intros Hf. unfold Arange_start_stop_step.
    rewrite (Arange_inferred_dtype_float _ _ _ Hf). reflexivity.
  - intros H1 H2. unfold Arange_start_stop_step.
    rewrite (Arange_inferred_dtype_step _ _ _ H1 H2). reflexivity.
  - reflexivity.
  - intros out device' H. unfold Arange_stop in H.
    apply Arange_returned_dtype in H. exact H.
Qed.

Lemma Arange_dtype_resolution_witness :
  Arange_start_stop_step (ScalarInt32 0) (ScalarFloat32 (Double.of_Z 5)) (ScalarInt32 1)
                         fresh_device
  = Arange (ScalarInt32 0) (ScalarFloat32 (Double.of_Z 5)) (ScalarInt32 1) Dtype.kFloat64
           fresh_device.
Proof.
  apply (proj1 (proj2 (Arange_dtype_resolution (ScalarInt32 0)
                         (ScalarFloat32 (Double.of_Z 5)) (ScalarInt32 1) fresh_device))).
  right. reflexivity.
Defined.

(** C3 as stated fails for [Arange(stop, device)]: a 32-bit float [stop] has
    float kind, yet the range gets the 32-bit float dtype, not the 64-bit one;
    a 64-bit integer [stop] gives a 64-bit integer range, although the default
    step 1 is a 32-bit integer. *)
Lemma Arange_stop_dtype_not_promoted :
  (exists out device',
      Arange_stop (ScalarFloat32 (Double.of_Z 5)) fresh_device = Returned out device'
      /\ has_float_kind (ScalarFloat32 (Double.of_Z 5))
      /\ dtype out = Dtype.kFloat32)
  /\ (exists out device',
         Arange_stop (ScalarInt64 5) fresh_device = Returned out device'
         /\ ~ has_float_kind (ScalarInt32 0) /\ ~ has_float_kind (ScalarInt64 5)
         /\ Scalar_.dtype (ScalarInt32 1) = Dtype.kInt32
         /\ dtype out = Dtype.kInt64)
  /\ ~ (forall stop device out device',
           Arange_stop stop device = Returned out device' ->
           (has_float_kind (ScalarInt32 0) \/ has_float_kind stop ->
            dtype out = Dtype.kFloat64)
           /\ (~ has_float_kind (ScalarInt32 0) -> ~ has_float_kind stop ->
               dtype out = Scalar_.dtype (ScalarInt32 1))).
Proof.
  assert (H32 : exists out device',
             Arange_stop (ScalarFloat32 (Double.of_Z 5)) fresh_device = Returned out device'
             /\ has_float_kind (ScalarFloat32 (Double.of_Z 5))
             /\ dtype out = Dtype.kFloat32).
  { eexists _, _. split; [vm_compute; reflexivity|]. split; reflexivity. }
  split; [exact H32|]. split.
  - eexists _, _. split; [vm_compute; reflexivity|].
    repeat split; unfold has_float_kind; cbn; discriminate.
  - intros Hall. destruct H32 as (out & device' & Hrun & Hkind & Hdt).
    destruct (Hall _ _ _ _ Hrun) as [Hfloat _].
    rewrite Hfloat in Hdt by (right; exact Hkind). discriminate.
Qed.

(** ** Contiguity of the constructed arrays *)

Lemma Strides_eqb_refl st : Strides_eqb st st = true.
Proof.
  unfold Strides_eqb. destruct (list_eq_dec Z.eq_dec st st) as [_|H].
  - reflexivity.
  - exfalso. apply H. reflexivity.
Qed.

Lemma IsContiguous_MakeArray sh dt data :
  IsContiguous (MakeArray sh (Strides_of sh dt) dt data) = true.
Proof. unfold IsContiguous. cbn. apply Strides_eqb_refl. Qed.

Lemma IsContiguous_iff a :
  IsContiguous a = true <-> strides a = Strides_of (shape a) (dtype a).
Proof.
  unfold IsContiguous, Strides_eqb.
  destruct (list_eq_dec Z.eq_dec (strides a) (Strides_of (shape a) (dtype a))) as [E|N].
  - split; intros _; [exact E | reflexivity].
  - split; [discriminate | intros E; exfalso; apply N, E].
Qed.

(** [Empty] always returns: a fresh leaf on the next buffer of the device,
    with the canonical strides. *)
Lemma Empty_returned sh dt device :
  exists device',
    Empty sh dt device
    = Returned (MakeArray sh (Strides_of sh dt) dt (next_buffer device)) device'
    /\ calls device' = calls device ++ [CallAllocate (Empty_bytesize sh dt)].
Proof.
  unfold Empty, bind, Device_.Allocate, ret. eexists. split; reflexivity.
Qed.

Lemma Full_returned sh v dt device :
  exists device',
    Full sh v dt device
    = Returned (MakeArray sh (Strides_of sh dt) dt (next_buffer device)) device'.
Proof.
  unfold Full, bind, Empty, Device_.Allocate, Array_Fill, Device_.Fill, ret.
  eexists. reflexivity.
Qed.

Lemma Arange_contiguous start stop step dt device out device' :
  Arange start stop step dt device = Returned out device' -> IsContiguous out = true.
Proof.
  intros H. destruct (Arange_returned _ _ _ _ _ _ _ H) as (n & _ & _ & Hsh & Hdt & Hst & _).
  apply IsContiguous_iff. rewrite Hst, Hsh, Hdt. reflexivity.
Qed.

Lemma canonical_like_MakeArray a data :
  canonical_like a (MakeArray (shape a) (Strides_of (shape a) (dtype a)) (dtype a) data).
Proof.
  unfold canonical_like. repeat split. apply IsContiguous_MakeArray.
Qed.

(** C9: for every template array, contiguous or not, [EmptyLike], [FullLike],
    [ZerosLike] and [OnesLike] return an array with the shape and dtype of the
    template and the canonical row-major strides, hence a contiguous one; they
    read the shape and the dtype of the template only: templates that agree on
    both give the same result on the same device, whatever their strides. *)
Theorem LikeFactory_canonical (a : Array) (fill_value : Scalar) (device : Device) :
  (exists out device', EmptyLike a device = Returned out device' /\ canonical_like a out)
  /\ (exists out device',
         FullLike a fill_value device = Returned out device' /\ canonical_like a out)
  /\ (exists out device', ZerosLike a device = Returned out device' /\ canonical_like a out)
  /\ (exists out device', OnesLike a device = Returned out device' /\ canonical_like a out)
  /\ (forall b : Array,
         shape b = shape a -> dtype b = dtype a ->
         EmptyLike b device = EmptyLike a device
         /\ FullLike b fill_value device = FullLike a fill_value device
         /\ ZerosLike b device = ZerosLike a device
         /\ OnesLike b device = OnesLike a device)
  /\ (IsContiguous reversed_view = false
      /\ exists out device',
           ZerosLike reversed_view fresh_device = Returned out device'
           /\ strides out = [8; 4] /\ IsContiguous out = true).
Proof.
  split; [|split; [|split; [|split; [|split]]]].
  - destruct (Empty_returned (shape a) (dtype a) device) as (device' & H & _).
    eexists _, device'. split; [exact H|]. apply canonical_like_MakeArray.
  - destruct (Full_returned (shape a) fill_value (dtype a) device) as (device' & H).
    eexists _, device'. split; [exact H|]. apply canonical_like_MakeArray.
  - destruct (Full_returned (shape a) (Scalar_.of_int 0) (dtype a) device) as (device' & H).
    eexists _, device'. split; [exact H|]. apply canonical_like_MakeArray.
  - destruct (Full_returned (shape a) (Scalar_.of_int 1) (dtype a) device) as (device' & H).
    eexists _, device'. split; [exact H|]. apply canonical_like_MakeArray.
  - intros b Hsh Hdt.
    unfold EmptyLike, FullLike, ZerosLike, OnesLike. rewrite Hsh, Hdt.
    repeat split.
  - split; [reflexivity|]. eexists _, _. split; [vm_compute; reflexivity|].
    split; reflexivity.
Qed.

Lemma LikeFactory_canonical_witness :
  ZerosLike (MakeArray [2; 2] [8; 4] Dtype.kInt32 0%nat) one_buffer_device
  = ZerosLike reversed_view one_buffer_device.
Proof.
  destruct (LikeFactory_canonical reversed_view (ScalarInt32 0) one_buffer_device)
    as (_ & _ & _ & _ & H & _).
  apply (H (MakeArray [2; 2] [8; 4] Dtype.kInt32 0%nat)); reflexivity.
Defined.

(** ** The internal routines and the assertion of GetRequiredBytes *)

Lemma ndim_Strides_of sh dt : ndim (Strides_of sh dt) = ndim sh.
Proof.
  unfold Strides_of, Strides_of_size. generalize (GetElementSize dt) as es.
  induction sh as [|d sh IH]; intros es; cbn [strides_from fst].
  - reflexivity.
  - specialize (IH es). destruct (strides_from sh es) as [st stride].
    cbn [fst ndim length] in *. unfold ndim in IH. rewrite IH. reflexivity.
Qed.

Lemma GetRequiredBytes_call_run sh st es device :
  ndim sh = ndim st ->
  internal.GetRequiredBytes_call sh st es device = Returned (GetRequiredBytes sh st es) device.
Proof.
  intros H. unfold internal.GetRequiredBytes_call, bind, assert, ret.
  rewrite H, Nat.eqb_refl. reflexivity.
Qed.

Lemma GetRequiredBytes_call_stopped sh st es device :
  ndim sh <> ndim st ->
  internal.GetRequiredBytes_call sh st es device = AssertionFailed.
Proof.
  intros H. unfold internal.GetRequiredBytes_call, bind, assert.
  apply Nat.eqb_neq in H. rewrite H. reflexivity.
Qed.

Lemma internal_Empty_run sh dt st device :
  ndim sh = ndim st ->
  internal.Empty sh dt st device
  = Returned (MakeArray sh st dt (next_buffer device))
      (mkDevice
         (calls device ++ [CallAllocate (GetRequiredBytes sh st (SizeT.wrap (GetElementSize dt)))])
         (S (next_buffer device))
         (fun b' => if Nat.eqb b' (next_buffer device)
                    then (fun _ => None) else memory device b')).
Proof.
  intros H. unfold internal.Empty, bind.
  rewrite GetRequiredBytes_call_run by exact H. reflexivity.
Qed.

Lemma internal_FromHostData_run sh dt host st device :
  ndim sh = ndim st ->
  internal.FromHostData sh dt host st device
  = Returned (MakeArray sh st dt (next_buffer device))
      (mkDevice
         (calls device
          ++ [CallFromHostMemory (GetRequiredBytes sh st (SizeT.wrap (GetElementSize dt)))])
         (S (next_buffer device))
         (fun b' => if Nat.eqb b' (next_buffer device)
                    then (fun off =>
                            if (0 <=? off)
                               && (off <? GetRequiredBytes sh st (SizeT.wrap (GetElementSize dt)))
                            then host off else None)
                    else memory device b')).
Proof.
  intros H. unfold internal.FromHostData, bind.
  rewrite GetRequiredBytes_call_run by exact H. reflexivity.
Qed.

Lemma internal_Empty_stopped sh dt st device :
  ndim sh <> ndim st -> internal.Empty sh dt st device = AssertionFailed.
Proof.
  intros H. unfold internal.Empty, bind.
  rewrite GetRequiredBytes_call_stopped by exact H. reflexivity.
Qed.

Lemma internal_FromHostData_stopped sh dt host st device :
  ndim sh <> ndim st -> internal.FromHostData sh dt host st device = AssertionFailed.
Proof.
  intros H. unfold internal.FromHostData, bind.
  rewrite GetRequiredBytes_call_stopped by exact H. reflexivity.
Qed.

(** C10: every array returned by a public construction routine ([Empty],
    both [Full], [Zeros], [Ones], every [Arange], [EmptyLike], [FullLike],
    [ZerosLike], [OnesLike]) is contiguous: its strides are the canonical
    row-major strides for its shape and dtype.  The internal routines that
    take strides return the strides they are given, contiguous or not, when
    these have the ndim of the shape; otherwise the assertion of
    [GetRequiredBytes] stops them. *)
Theorem public_construction_contiguous
  (shape0 : Shape) (dtype0 : Dtype) (fill_value start stop step : Scalar) (a : Array)
  (device : Device) :
  (exists out device', Empty shape0 dtype0 device = Returned out device'
                       /\ IsContiguous out = true)
  /\ (exists out device', Full shape0 fill_value dtype0 device = Returned out device'
                          /\ IsContiguous out = true)
  /\ (exists out device', Full_scalar shape0 fill_value device = Returned out device'
                          /\ IsContiguous out = true)
  /\ (exists out device', Zeros shape0 dtype0 device = Returned out device'
                          /\ IsContiguous out = true)
  /\ (exists out device', Ones shape0 dtype0 device = Returned out device'
                          /\ IsContiguous out = true)
  /\ (exists out device', EmptyLike a device = Returned out device'
                          /\ IsContiguous out = true)
  /\ (exists out device', FullLike a fill_value device = Returned out device'
                          /\ IsContiguous out = true)
  /\ (exists out device', ZerosLike a device = Returned out device'
                          /\ IsContiguous out = true)
  /\ (exists out device', OnesLike a device = Returned out device'
                          /\ IsContiguous out = true)
  /\ (forall out device',
         Arange start stop step dtype0 device = Returned out device'
         \/ Arange_start_stop_step start stop step device = Returned out device'
         \/ Arange_start_stop_dtype start stop dtype0 device = Returned out device'
         \/ Arange_stop_dtype stop dtype0 device = Returned out device'
         \/ Arange_stop stop device = Returned out device' ->
         IsContiguous out = true)
  /\ (forall strides0 data,
         ndim shape0 = ndim strides0 ->
         (exists out device',
             internal.Empty shape0 dtype0 strides0 device = Returned out device'
             /\ strides out = strides0)
         /\ (exists out device',
                internal.FromHostData shape0 dtype0 data strides0 device
                = Returned out device'
                /\ strides out = strides0))
  /\ (forall strides0 data,
         ndim shape0 <> ndim strides0 ->
         internal.Empty shape0 dtype0 strides0 device = AssertionFailed
         /\ internal.FromHostData shape0 dtype0 data strides0 device = AssertionFailed)
  /\ (exists out device',
         internal.Empty [2; 2] Dtype.kInt32 [-8; 16] fresh_device = Returned out device'
         /\ IsContiguous out = false).
Proof.
  assert (HE : forall sh dt, exists out device',
               Empty sh dt device = Returned out device' /\ IsContiguous out = true).
  { intros sh dt. destruct (Empty_returned sh dt device) as (device' & H & _).
    eexists _, device'. split; [exact H|]. apply IsContiguous_MakeArray. }
  assert (HF : forall sh v dt, exists out device',
               Full sh v dt device = Returned out device' /\ IsContiguous out = true).
  { intros sh v dt. destruct (Full_returned sh v dt device) as (device' & H).
    eexists _, device'. split; [exact H|]. apply IsContiguous_MakeArray. }
  repeat match goal with |- _ /\ _ => split end.
  - apply HE.
  - apply HF.
  - apply HF.
  - apply HF.
  - apply HF.
  - apply HE.
  - apply HF.
  - apply HF.
  - apply HF.
  - intros out device' [H|[H|[H|[H|H]]]]; exact (Arange_contiguous _ _ _ _ _ _ _ H).
  - intros strides0 data Hndim.
    rewrite internal_Empty_run, internal_FromHostData_run by exact Hndim.
    split; eexists _, _; split; reflexivity.
  - intros strides0 data Hndim. split.
    + apply internal_Empty_stopped, Hndim.
    + apply internal_FromHostData_stopped, Hndim.
  - eexists _, _. split; [vm_compute; reflexivity|]. reflexivity.
Qed.

Lemma public_construction_contiguous_witness :
  exists out device',
    Arange_stop (ScalarInt32 3) fresh_device = Returned out device'
    /\ strides out = [4] /\ IsContiguous out = true.
Proof.
  destruct (public_construction_contiguous [3] Dtype.kInt32 (ScalarInt32 0)
              (ScalarInt32 0) (ScalarInt32 3) (ScalarInt32 1) reversed_view fresh_device)
    as (_ & _ & _ & _ & _ & _ & _ & _ & _ & H & _).
  eexists _, _. split; [vm_compute; reflexivity|]. split; [reflexivity|].
  eapply H. right. right. right. right. vm_compute. reflexivity.
Defined.

(** ** Indices and stores *)

Lemma in_bounds_positive index sh : in_bounds index sh -> Forall (fun d => 1 <= d) sh.
Proof.
  induction 1 as [|i d index sh Hi _ IH]; constructor; [lia | exact IH].
Qed.

Lemma in_bounds_indices index sh : in_bounds index sh -> In index (indices sh).
Proof.
  induction 1 as [|i d index sh Hi _ IH]; cbn [indices].
  - left. reflexivity.
  - apply in_flat_map. exists (Z.to_nat i). split.
    + apply in_seq. lia.
    + rewrite Z2Nat.id by lia. apply in_map, IH.
Qed.

(** Within the bounds of a shape, the offsets of the canonical layout stay
    within its byte size. *)
Lemma dot_contiguous_bounds sh es index :
  1 <= es -> es * total_elements sh < 2 ^ 63 -> in_bounds index sh ->
  0 <= dot index (Strides_of_size sh es)
  /\ dot index (Strides_of_size sh es) + es <= es * total_elements sh.
Proof.
  intros Hes Hfit Hin. revert Hfit.
  induction Hin as [|i d index sh Hi Hin IH]; intros Hfit.
  - cbn. unfold total_elements. cbn. lia.
  - pose proof (in_bounds_positive _ _ Hin) as Hpos.
    pose proof (total_elements_pos sh Hpos) as HT.
    assert (E : total_elements (d :: sh) = d * total_elements sh) by reflexivity.
    rewrite E in *.
    assert (Hfit' : es * total_elements sh < 2 ^ 63) by nia.
    destruct (strides_from_exact sh es Hpos Hes Hfit') as (Hsnd & _ & _).
    specialize (IH Hfit').
    unfold Strides_of_size in *. cbn [strides_from].
    destruct (strides_from sh es) as [st stride]. cbn [fst snd] in *.
    subst stride. cbn [dot]. nia.
Qed.

(** Stores at other places leave a cell as it is. *)
Lemma fold_store_other (b : BufferId) (off : list Z -> Z) (f : list Z -> option Elem) l m b' k :
  (forall j, In j l -> b' = b -> off j <> k) ->
  fold_left (fun m' index => store m' b (off index) (f index)) l m b' k = m b' k.
Proof.
  revert m. induction l as [|x l IH]; intros m Hne; cbn [fold_left].
  - reflexivity.
  - rewrite IH by (intros j Hj; apply Hne; right; exact Hj).
    unfold store. destruct (Nat.eqb b' b) eqn:Eb; [|reflexivity].
    apply Nat.eqb_eq in Eb.
    destruct (k =? off x) eqn:Ek; [|reflexivity].
    apply Z.eqb_eq in Ek. exfalso. apply (Hne x); [left; reflexivity | exact Eb | symmetry; exact Ek].
Qed.

(** After storing [f index] at [off index] for the indices of a list on which
    [off] is injective, the cell of each index holds its value. *)
Lemma fold_store_same (b : BufferId) (off : list Z -> Z) (f : list Z -> option Elem) l m i :
  (forall x y, In x l -> In y l -> off x = off y -> x = y) ->
  In i l ->
  fold_left (fun m' index => store m' b (off index) (f index)) l m b (off i) = f i.
Proof.
  revert m. induction l as [|x l IH]; intros m Hinj Hi; [destruct Hi|].
  cbn [fold_left].
  destruct (in_dec (list_eq_dec Z.eq_dec) i l) as [Hil|Hil].
  - apply IH; [|exact Hil].
    intros y z Hy Hz. apply Hinj; right; assumption.
  - destruct Hi as [->|Hi]; [|contradiction].
    rewrite fold_store_other.
    + unfold store. rewrite Nat.eqb_refl, Z.eqb_refl. reflexivity.
    + intros j Hj _ E. apply Hil.
      rewrite <- (Hinj j i); [exact Hj | right; exact Hj | left; reflexivity | exact E].
Qed.

Lemma indices_in_bounds index sh : In index (indices sh) -> in_bounds index sh.
Proof.
  revert index. induction sh as [|d sh IH]; intros index Hin; cbn [indices] in Hin.
  - destruct Hin as [<-|[]]. constructor.
  - apply in_flat_map in Hin. destruct Hin as (i & Hi & Hin).
    apply in_map_iff in Hin. destruct Hin as (index' & <- & Hin').
    apply in_seq in Hi.
    constructor; [lia | apply IH, Hin'].
Qed.

(** ** The extent of a layout *)

Lemma dot_difference_le_span sh st i j :
  in_bounds i sh -> in_bounds j sh -> dot i st - dot j st <= span_sum sh st.
Proof.
  intros Hi. revert st j.
  induction Hi as [|i0 d i sh Hi0 Hi IH]; intros st j Hj.
  - inversion Hj. destruct st; cbn; lia.
  - inversion Hj as [|j0 d' j' sh' Hj0 Hj' E1 E2]. subst.
    destruct st as [|s st]; [cbn; lia|].
    cbn [dot span_sum]. specialize (IH st j' Hj'). nia.
Qed.

Lemma span_attained sh st :
  ndim sh = ndim st -> Forall (fun d => 1 <= d) sh ->
  exists i j, in_bounds i sh /\ in_bounds j sh /\ dot i st - dot j st = span_sum sh st.
Proof.
  unfold ndim. intros Hlen Hpos. revert st Hlen.
  induction Hpos as [|d sh Hd Hpos IH]; intros [|s st] Hlen; try discriminate.
  - exists [], []. repeat split; constructor.
  - destruct (IH st ltac:(cbn in Hlen; lia)) as (i & j & Hi & Hj & E).
    destruct (Z_le_gt_dec 0 s) as [Hs|Hs].
    + exists ((d - 1) :: i), (0 :: j).
      repeat split; try (constructor; [lia | assumption]).
      cbn [dot span_sum]. rewrite Z.abs_eq by lia. lia.
    + exists (0 :: i), ((d - 1) :: j).
      repeat split; try (constructor; [lia | assumption]).
      cbn [dot span_sum]. rewrite Z.abs_neq by lia. lia.
Qed.

(** X1: [GetRequiredBytes] is the extent of the layout, "the distance between
    the first and the last element, plus single element size": no two
    elements within the bounds of the shape lie further apart than the result
    minus one element, and two of them lie exactly that far apart.  The
    element count is an [int64_t] value and the extent a [size_t] value. *)
Theorem GetRequiredBytes_is_extent (shape : Shape) (strides : Strides) (element_size : Z) :
  ndim shape = ndim strides ->
  Forall (fun d => 1 <= d) shape ->
  Int64.in_range (total_elements shape) ->
  SizeT.in_range element_size ->
  SizeT.in_range (element_size + span_sum shape strides) ->
  (forall i j, in_bounds i shape -> in_bounds j shape ->
     dot i strides - dot j strides + element_size
     <= GetRequiredBytes shape strides element_size)
  /\ (exists i j, in_bounds i shape /\ in_bounds j shape
        /\ dot i strides - dot j strides + element_size
           = GetRequiredBytes shape strides element_size).
Proof.
  intros Hlen Hpos Htot Hes Hfit.
  assert (E : GetRequiredBytes shape strides element_size
              = element_size + span_sum shape strides).
  { apply GetRequiredBytes_exact; try assumption.
    unfold Int64.in_range, Int64.min_signed, Int64.max_signed in Htot.
    rewrite GetTotalSize_exact by lia.
    pose proof (total_elements_pos shape Hpos). lia. }
  rewrite E. split.
  - intros i j Hi Hj. pose proof (dot_difference_le_span shape strides i j Hi Hj). lia.
  - destruct (span_attained shape strides Hlen Hpos) as (i & j & Hi & Hj & Hd).
    exists i, j. repeat split; try assumption. lia.
Qed.

Lemma GetRequiredBytes_is_extent_witness :
  dot [1; 0] [-8; 16] - dot [0; 1] [-8; 16] + 4 <= GetRequiredBytes [2; 2] [-8; 16] 4.
Proof.
  refine (proj1 (GetRequiredBytes_is_extent [2; 2] [-8; 16] 4 eq_refl _ _ _ _)
                [1; 0] [0; 1] _ _).
  - repeat constructor; lia.
  - unfold Int64.in_range, Int64.min_signed, Int64.max_signed. cbn. lia.
  - unfold SizeT.in_range, SizeT.modulus. lia.
  - unfold SizeT.in_range, SizeT.modulus. cbn. lia.
  - repeat constructor; lia.
  - repeat constructor; lia.
Defined.

(** X2: the boolean check of [Arange] rejects lengths above 2 only: a boolean
    range with a nonzero step and a computed length of at most 2 is returned,
    with that length; [Arange(2, dtype=bool)] has length 2. *)
Theorem Arange_bool_short_accepted (start stop step : Scalar) (device : Device) (size : Z) :
  is_zero step = false ->
  Arange_size start stop step = Some size ->
  size <= 2 ->
  (exists out device',
      Arange start stop step Dtype.kBool device = Returned out device'
      /\ shape out = [size] /\ dtype out = Dtype.kBool)
  /\ exists out device',
       Arange_stop_dtype (ScalarInt32 2) Dtype.kBool fresh_device = Returned out device'
       /\ shape out = [2].
Proof.
  intros Hz Hsize Hle. split.
  - assert (Hb : (2 <? size) && Dtype.eqb Dtype.kBool Dtype.kBool = false).
    { apply andb_false_iff. left. apply Z.ltb_ge. exact Hle. }
    destruct (Arange_returns start stop step Dtype.kBool device size Hz Hsize Hb)
      as (out & device' & H).
    exists out, device'. split; [exact H|].
    destruct (Arange_returned _ _ _ _ _ _ _ H) as (n & Hn & _ & Hsh & Hdt & _).
    rewrite Hsize in Hn. inversion Hn. subst n. split; assumption.
  - eexists _, _. split; [vm_compute; reflexivity | reflexivity].
Qed.

Lemma Arange_bool_short_accepted_witness :
  exists out device',
    Arange (ScalarInt32 0) (ScalarInt32 1) (ScalarInt32 1) Dtype.kBool fresh_device
    = Returned out device'
    /\ shape out = [1] /\ dtype out = Dtype.kBool.
Proof.
  refine (proj1 (Arange_bool_short_accepted (ScalarInt32 0) (ScalarInt32 1) (ScalarInt32 1)
                   fresh_device 1 _ _ _)).
  - reflexivity.
  - vm_compute. reflexivity.
  - lia.
Defined.

(** ** Views of one layout *)

(** [GetRequiredBytes] in closed form, for a [size_t] element size. *)
Lemma GetRequiredBytes_closed sh st es :
  ndim sh = ndim st -> SizeT.in_range es ->
  GetRequiredBytes sh st es
  = if GetTotalSize sh =? 0 then 0 else SizeT.wrap (es + span_sum sh st).
Proof.
  intros Hlen Hes. destruct (GetTotalSize sh =? 0) eqn:E.
  - apply GetRequiredBytes_empty, Z.eqb_eq, E.
  - apply GetRequiredBytes_nonempty; [apply Z.eqb_neq, E | exact Hlen | exact Hes].
Qed.

Lemma span_sum_app sh1 st1 sh2 st2 :
  ndim sh1 = ndim st1 ->
  span_sum (sh1 ++ sh2) (st1 ++ st2) = span_sum sh1 st1 + span_sum sh2 st2.
Proof.
  unfold ndim. revert st1.
  induction sh1 as [|d sh1 IH]; intros [|s st1] Hlen; try discriminate.
  - reflexivity.
  - cbn [app span_sum]. rewrite IH by (cbn in Hlen; lia). lia.
Qed.

Lemma total_elements_app sh1 sh2 :
  total_elements (sh1 ++ sh2) = total_elements sh1 * total_elements sh2.
Proof.
  unfold total_elements. induction sh1 as [|d sh1 IH]; cbn [app fold_right].
  - lia.
  - rewrite IH. lia.
Qed.

(** X3: an axis of extent 1 is free, whatever its stride: inserting one
    anywhere into a shape, with any stride at the same place of the strides,
    leaves [GetRequiredBytes] as it is. *)
Theorem GetRequiredBytes_unit_axis
  (sh1 sh2 : Shape) (st1 st2 : Strides) (s element_size : Z) :
  ndim sh1 = ndim st1 -> ndim sh2 = ndim st2 ->
  SizeT.in_range element_size ->
  GetRequiredBytes (sh1 ++ 1 :: sh2) (st1 ++ s :: st2) element_size
  = GetRequiredBytes (sh1 ++ sh2) (st1 ++ st2) element_size.
Proof.
  unfold ndim. intros H1 H2 Hes.
  rewrite !GetRequiredBytes_closed; unfold ndim; rewrite ?length_app; cbn [length];
    try lia; try assumption.
  rewrite !GetTotalSize_wrap, !total_elements_app, !span_sum_app by exact H1.
  replace (total_elements (1 :: sh2)) with (total_elements sh2)
    by (unfold total_elements; cbn [fold_right]; lia).
  cbn [span_sum]. replace ((1 - 1) * Z.abs s + span_sum sh2 st2) with (span_sum sh2 st2) by lia.
  reflexivity.
Qed.

Lemma GetRequiredBytes_unit_axis_witness :
  GetRequiredBytes [2; 1; 3] [12; 1000; 4] 4 = GetRequiredBytes [2; 3] [12; 4] 4.
Proof.
  refine (GetRequiredBytes_unit_axis [2] [3] [12] [4] 1000 4 eq_refl eq_refl _).
  unfold SizeT.in_range, SizeT.modulus. lia.
Defined.

(** The sum and the product over the axes, read off the list of (dimension,
    stride) pairs. *)
Lemma span_sum_combine sh st :
  span_sum sh st
  = fold_right (fun p acc => (fst p - 1) * Z.abs (snd p) + acc) 0 (combine sh st).
Proof.
  revert st. induction sh as [|d sh IH]; intros [|s st]; cbn; try reflexivity.
  rewrite IH. reflexivity.
Qed.

Lemma total_elements_combine sh st :
  ndim sh = ndim st ->
  total_elements sh = fold_right (fun p acc => fst p * acc) 1 (combine sh st).
Proof.
  unfold ndim, total_elements. revert st.
  induction sh as [|d sh IH]; intros [|s st] Hlen; try discriminate; cbn.
  - reflexivity.
  - rewrite (IH st) by (cbn in Hlen; lia). reflexivity.
Qed.

Lemma fold_right_sum_perm (f : Z * Z -> Z) l l' :
  Permutation l l' ->
  fold_right (fun p acc => f p + acc) 0 l = fold_right (fun p acc => f p + acc) 0 l'.
Proof.
  induction 1 as [|x l l' _ IH|x y l|l l' l'' _ IH1 _ IH2]; cbn.
  - reflexivity.
  - rewrite IH. reflexivity.
  - lia.
  - rewrite IH1. exact IH2.
Qed.

Lemma fold_right_prod_perm (f : Z * Z -> Z) l l' :
  Permutation l l' ->
  fold_right (fun p acc => f p * acc) 1 l = fold_right (fun p acc => f p * acc) 1 l'.
Proof.
  induction 1 as [|x l l' _ IH|x y l|l l' l'' _ IH1 _ IH2]; cbn.
  - reflexivity.
  - rewrite IH. reflexivity.
  - lia.
  - rewrite IH1. exact IH2.
Qed.

(** X4: a view with permuted axes needs the same bytes: when the (dimension,
    stride) pairs of two layouts are permutations of each other, as for a
    transposed view, [GetRequiredBytes] agrees on them. *)
Theorem GetRequiredBytes_transpose
  (shape shape' : Shape) (strides strides' : Strides) (element_size : Z) :
  ndim shape = ndim strides -> ndim shape' = ndim strides' ->
  SizeT.in_range element_size ->
  Permutation (combine shape strides) (combine shape' strides') ->
  GetRequiredBytes shape' strides' element_size
  = GetRequiredBytes shape strides element_size.
Proof.
  intros H1 H2 Hes Hperm.
  rewrite !GetRequiredBytes_closed by assumption.
  rewrite !GetTotalSize_wrap.
  rewrite (total_elements_combine shape strides H1),
    (total_elements_combine shape' strides' H2).
  rewrite !span_sum_combine.
  rewrite (fold_right_prod_perm fst _ _ Hperm).
  rewrite (fold_right_sum_perm (fun p => (fst p - 1) * Z.abs (snd p)) _ _ Hperm).
  reflexivity.
Qed.

Lemma GetRequiredBytes_transpose_witness :
  GetRequiredBytes [3; 2] [4; 12] 4 = GetRequiredBytes [2; 3] [12; 4] 4.
Proof.
  refine (GetRequiredBytes_transpose [2; 3] [3; 2] [12; 4] [4; 12] 4 eq_refl eq_refl _ _).
  - unfold SizeT.in_range, SizeT.modulus. lia.
  - apply perm_swap.
Defined.

(** ** The two allocation paths *)

(** X5: the default path is the custom path at the canonical strides: for a
    shape with non-negative dimensions whose byte size is an [int64_t] value,
    [internal::Empty] given [Strides{shape, dtype}] behaves as [Empty]: the
    same request to the device and the same array. *)
Theorem internal_Empty_canonical (shape : Shape) (dtype : Dtype) (device : Device) :
  Forall (fun d => 0 <= d) shape ->
  total_elements shape * GetElementSize dtype < 2 ^ 63 ->
  internal.Empty shape dtype (Strides_of shape dtype) device = Empty shape dtype device.
Proof.
  intros Hsh Hfit.
  rewrite internal_Empty_run by (symmetry; apply ndim_Strides_of).
  unfold Empty, bind, Device_.Allocate, ret.
  rewrite SizeT_wrap_GetElementSize, GetRequiredBytes_contiguous by assumption.
  rewrite Empty_bytesize_exact by assumption. reflexivity.
Qed.

Lemma internal_Empty_canonical_witness :
  internal.Empty [2; 3] Dtype.kFloat64 [24; 8] fresh_device
  = Empty [2; 3] Dtype.kFloat64 fresh_device.
Proof.
  refine (internal_Empty_canonical [2; 3] Dtype.kFloat64 fresh_device _ _).
  - repeat constructor; lia.
  - vm_compute. reflexivity.
Defined.

(** ** Shapes without elements *)

Lemma indices_empty sh : Exists (fun d => d = 0) sh -> indices sh = [].
Proof.
  induction 1 as [d sh Hd | d sh _ IH]; cbn [indices].
  - subst d. reflexivity.
  - rewrite IH. cbn [map].
    induction (seq 0 (Z.to_nat d)) as [|i l IHl]; [reflexivity | exact IHl].
Qed.

Lemma Empty_bytesize_zero sh dt : Exists (fun d => d = 0) sh -> Empty_bytesize sh dt = 0.
Proof.
  intros Hz. unfold Empty_bytesize. rewrite (GetTotalSize_zero sh Hz). reflexivity.
Qed.

(** X6: a shape with a zero dimension costs nothing: whatever the dtype and
    the fill value, [Empty] asks the device for 0 bytes, [internal::Empty] and
    [internal::FromHostData] ask for 0 bytes whatever the strides of the ndim
    of the shape, and [Full] asks for 0 bytes and stores no element: the
    buffer of its array holds nothing. *)
Theorem zero_sized_requests
  (shape0 : Shape) (dtype0 : Dtype) (strides0 : Strides) (host : Buffer)
  (fill_value : Scalar) (device : Device) :
  Exists (fun d => d = 0) shape0 ->
  (exists out device',
      Empty shape0 dtype0 device = Returned out device'
      /\ calls device' = calls device ++ [CallAllocate 0])
  /\ (ndim shape0 = ndim strides0 ->
      exists out device',
        internal.Empty shape0 dtype0 strides0 device = Returned out device'
        /\ calls device' = calls device ++ [CallAllocate 0])
  /\ (ndim shape0 = ndim strides0 ->
      exists out device',
        internal.FromHostData shape0 dtype0 host strides0 device = Returned out device'
        /\ calls device' = calls device ++ [CallFromHostMemory 0]
        /\ forall off, memory device' (data out) off = None)
  /\ (exists out device',
         Full shape0 fill_value dtype0 device = Returned out device'
         /\ allocation_requests (calls device')
            = allocation_requests (calls device) ++ [0]
         /\ forall off, memory device' (data out) off = None).
Proof.
  intros Hz.
  pose proof (GetRequiredBytes_empty shape0 strides0 (SizeT.wrap (GetElementSize dtype0))
                (GetTotalSize_zero shape0 Hz)) as Hbytes.
  split; [|split; [|split]].
  - unfold Empty, bind, Device_.Allocate, ret. eexists _, _. split; [reflexivity|].
    cbn [calls]. rewrite (Empty_bytesize_zero shape0 dtype0 Hz). reflexivity.
  - intros Hndim. rewrite internal_Empty_run by exact Hndim. eexists _, _.
    split; [reflexivity|]. cbn [calls]. rewrite Hbytes. reflexivity.
  - intros Hndim. rewrite internal_FromHostData_run by exact Hndim. eexists _, _.
    split; [reflexivity|]. cbn [calls memory data MakeArray]. rewrite Hbytes.
    split; [reflexivity|]. intros off. rewrite Nat.eqb_refl.
    destruct (0 <=? off) eqn:E1; [|reflexivity].
    destruct (off <? 0) eqn:E2; [|reflexivity].
    apply Z.leb_le in E1. apply Z.ltb_lt in E2. lia.
  - unfold Full, bind, Empty, Device_.Allocate, Array_Fill, Device_.Fill, ret.
    eexists _, _. split; [reflexivity|].
    cbn [calls memory data MakeArray next_buffer].
    rewrite (Empty_bytesize_zero shape0 dtype0 Hz). split.
    + rewrite <- app_assoc. cbn [app].
      induction (calls device) as [|c cs IH]; [reflexivity|].
      destruct c; cbn; rewrite ?IH; reflexivity.
    + intros off. unfold write_elements, MakeArray. cbn [shape].
      rewrite (indices_empty shape0 Hz).
      cbn [fold_left]. rewrite Nat.eqb_refl. reflexivity.
Qed.

Lemma zero_sized_requests_witness :
  exists out device',
    internal.Empty [3; 0] Dtype.kInt64 [-16; 8] fresh_device = Returned out device'
    /\ calls device' = calls fresh_device ++ [CallAllocate 0].
Proof.
  refine (proj1 (proj2 (zero_sized_requests [3; 0] Dtype.kInt64 [-16; 8]
                          (fun _ => None) (ScalarInt32 0) fresh_device _)) eq_refl).
  apply Exists_cons_tl, Exists_cons_hd. reflexivity.
Defined.

(** ** The allocation covers the elements *)

Lemma dot_nonnegative_strides sh st index :
  in_bounds index sh -> Forall (fun s => 0 <= s) st ->
  0 <= dot index st <= span_sum sh st.
Proof.
  intros Hin. revert st.
  induction Hin as [|i d index sh Hi _ IH]; intros st Hst.
  - destruct st; cbn; lia.
  - destruct st as [|s st]; [cbn; lia|].
    inversion Hst as [|s' st' Hs Hst']. subst.
    cbn [dot span_sum]. specialize (IH st Hst').
    rewrite Z.abs_eq by lia. nia.
Qed.

Lemma GetRequiredBytes_in_bounds sh st es index :
  ndim sh = ndim st -> in_bounds index sh ->
  Int64.in_range (total_elements sh) ->
  SizeT.in_range es -> SizeT.in_range (es + span_sum sh st) ->
  GetRequiredBytes sh st es = es + span_sum sh st.
Proof.
  intros Hlen Hin Htot Hes Hfit.
  apply GetRequiredBytes_exact; try assumption.
  unfold Int64.in_range, Int64.min_signed, Int64.max_signed in Htot.
  rewrite GetTotalSize_exact by lia.
  pose proof (total_elements_pos sh (in_bounds_positive _ _ Hin)). lia.
Qed.

(** X7: the custom path allocates enough for forward layouts: with
    non-negative strides, every element within the bounds of the shape lies,
    with all its bytes, inside the buffer [internal::Empty] asked for.  The
    element count is an [int64_t] value and the extent a [size_t] value. *)
Theorem internal_Empty_covers_elements
  (shape0 : Shape) (dtype0 : Dtype) (strides0 : Strides) (device : Device) :
  ndim shape0 = ndim strides0 ->
  Forall (fun s => 0 <= s) strides0 ->
  Int64.in_range (total_elements shape0) ->
  SizeT.in_range (GetElementSize dtype0 + span_sum shape0 strides0) ->
  exists out device' bytesize,
    internal.Empty shape0 dtype0 strides0 device = Returned out device'
    /\ calls device' = calls device ++ [CallAllocate bytesize]
    /\ forall index, in_bounds index shape0 ->
         0 <= element_offset out index
         /\ element_offset out index + GetElementSize dtype0 <= bytesize.
Proof.
  intros Hlen Hst Htot Hfit.
  rewrite internal_Empty_run by exact Hlen.
  eexists _, _, _. split; [reflexivity|]. split; [reflexivity|].
  intros index Hin. rewrite SizeT_wrap_GetElementSize.
  pose proof (GetElementSize_pos dtype0) as Hes.
  rewrite (GetRequiredBytes_in_bounds shape0 strides0 _ index) by
    (try assumption; unfold SizeT.in_range, SizeT.modulus; lia).
  unfold element_offset, MakeArray. cbn [offset strides].
  pose proof (dot_nonnegative_strides shape0 strides0 index Hin Hst). lia.
Qed.

Lemma internal_Empty_covers_elements_witness :
  exists out device' bytesize,
    internal.Empty [2; 2] Dtype.kInt32 [16; 8] fresh_device = Returned out device'
    /\ calls device' = calls fresh_device ++ [CallAllocate bytesize]
    /\ forall index, in_bounds index [2; 2] ->
         0 <= element_offset out index
         /\ element_offset out index + GetElementSize Dtype.kInt32 <= bytesize.
Proof.
  refine (internal_Empty_covers_elements [2; 2] Dtype.kInt32 [16; 8] fresh_device
            eq_refl _ _ _).
  - repeat constructor; lia.
  - unfold Int64.in_range, Int64.min_signed, Int64.max_signed. cbn. lia.
  - unfold SizeT.in_range, SizeT.modulus. cbn. lia.
Defined.

(** Within the bounds of a shape whose byte size is an [int64_t] value, the
    bytes of an element of the canonical layout lie among the bytes [Empty]
    asks for. *)
Lemma contiguous_offsets_in_allocation sh dt index :
  total_elements sh * GetElementSize dt < 2 ^ 63 -> in_bounds index sh ->
  0 <= dot index (Strides_of sh dt)
  /\ dot index (Strides_of sh dt) + GetElementSize dt <= Empty_bytesize sh dt.
Proof.
  intros Hfit Hin. pose proof (GetElementSize_pos dt) as Hes.
  pose proof (in_bounds_positive _ _ Hin) as Hpos.
  rewrite Empty_bytesize_exact;
    [|eapply Forall_impl; [|exact Hpos]; cbn; intros; lia | exact Hfit].
  unfold Strides_of.
  pose proof (dot_contiguous_bounds sh (GetElementSize dt) index) as H.
  specialize (H ltac:(lia) ltac:(lia) Hin). lia.
Qed.

(** X8: the default path allocates enough: every element within the bounds of
    the shape lies, with all its bytes, inside the buffer [Empty] asked for.
    The byte size of the shape is an [int64_t] value. *)
Theorem Empty_covers_elements (shape0 : Shape) (dtype0 : Dtype) (device : Device) :
  total_elements shape0 * GetElementSize dtype0 < 2 ^ 63 ->
  exists out device' bytesize,
    Empty shape0 dtype0 device = Returned out device'
    /\ calls device' = calls device ++ [CallAllocate bytesize]
    /\ forall index, in_bounds index shape0 ->
         0 <= element_offset out index
         /\ element_offset out index + GetElementSize dtype0 <= bytesize.
Proof.
  intros Hfit. unfold Empty, bind, Device_.Allocate, ret.
  eexists _, _, _. split; [reflexivity|]. split; [reflexivity|].
  intros index Hin. pose proof (GetElementSize_pos dtype0) as Hes.
  pose proof (in_bounds_positive _ _ Hin) as Hpos.
  rewrite Empty_bytesize_exact;
    [|eapply Forall_impl; [|exact Hpos]; cbn; intros; lia | exact Hfit].
  unfold element_offset, MakeArray. cbn [offset strides]. unfold Strides_of.
  pose proof (dot_contiguous_bounds shape0 (GetElementSize dtype0) index) as H.
  specialize (H ltac:(lia) ltac:(lia) Hin). lia.
Qed.

Lemma Empty_covers_elements_witness :
  exists out device' bytesize,
    Empty [2; 3] Dtype.kInt32 fresh_device = Returned out device'
    /\ calls device' = calls fresh_device ++ [CallAllocate bytesize]
    /\ forall index, in_bounds index [2; 3] ->
         0 <= element_offset out index
         /\ element_offset out index + GetElementSize Dtype.kInt32 <= bytesize.
Proof.
  refine (Empty_covers_elements [2; 3] Dtype.kInt32 fresh_device _).
  vm_compute. reflexivity.
Defined.

(** X9: [FromHostData] brings every element over: with non-negative strides,
    each element of the returned array within the bounds of the shape is the
    host value at its offset; the device is asked for exactly
    [GetRequiredBytes] bytes of the host buffer. *)
Theorem FromHostData_elements
  (shape0 : Shape) (dtype0 : Dtype) (host : Buffer) (strides0 : Strides) (device : Device) :
  ndim shape0 = ndim strides0 ->
  Forall (fun s => 0 <= s) strides0 ->
  Int64.in_range (total_elements shape0) ->
  SizeT.in_range (GetElementSize dtype0 + span_sum shape0 strides0) ->
  exists out device',
    internal.FromHostData shape0 dtype0 host strides0 device = Returned out device'
    /\ calls device'
       = calls device
         ++ [CallFromHostMemory (GetRequiredBytes shape0 strides0 (GetElementSize dtype0))]
    /\ forall index, in_bounds index shape0 ->
         element (memory device') out index = host (dot index strides0).
Proof.
  intros Hlen Hst Htot Hfit.
  rewrite internal_FromHostData_run by exact Hlen.
  eexists _, _. split; [reflexivity|]. rewrite SizeT_wrap_GetElementSize.
  split; [reflexivity|].
  intros index Hin. pose proof (GetElementSize_pos dtype0) as Hes.
  unfold element, element_offset, MakeArray. cbn [memory data offset strides].
  rewrite Nat.eqb_refl.
  rewrite (GetRequiredBytes_in_bounds shape0 strides0 _ index) by
    (try assumption; unfold SizeT.in_range, SizeT.modulus; lia).
  pose proof (dot_nonnegative_strides shape0 strides0 index Hin Hst) as Hdot.
  rewrite Z.add_0_l.
  rewrite (proj2 (Z.leb_le 0 _)) by lia.
  rewrite (proj2 (Z.ltb_lt _ _)) by lia.
  reflexivity.
Qed.

Lemma FromHostData_elements_witness :
  exists out device',
    internal.FromHostData [2; 2] Dtype.kInt32
      (fun off => Some (HostValue (ScalarInt64 off))) [16; 8] fresh_device
    = Returned out device'
    /\ calls device' = calls fresh_device ++ [CallFromHostMemory 28]
    /\ forall index, in_bounds index [2; 2] ->
         element (memory device') out index
         = Some (HostValue (ScalarInt64 (dot index [16; 8]))).
Proof.
  refine (FromHostData_elements [2; 2] Dtype.kInt32
            (fun off => Some (HostValue (ScalarInt64 off))) [16; 8] fresh_device
            eq_refl _ _ _).
  - repeat constructor; lia.
  - unfold Int64.in_range, Int64.min_signed, Int64.max_signed. cbn. lia.
  - unfold SizeT.in_range, SizeT.modulus. cbn. lia.
Defined.

(** ** What the kernels leave in memory *)

(** After storing one value at the offsets of a list of indices, each of
    these offsets holds it. *)
Lemma fold_store_constant (b : BufferId) (off : list Z -> Z) (v : option Elem) l m k :
  m b k = v \/ (exists j, In j l /\ off j = k) ->
  fold_left (fun m' index => store m' b (off index) v) l m b k = v.
Proof.
  revert m. induction l as [|x l IH]; intros m H; cbn [fold_left].
  - destruct H as [H|(j & [] & _)]. exact H.
  - apply IH. unfold store. rewrite Nat.eqb_refl. cbn [andb].
    destruct (k =? off x) eqn:E; [left; reflexivity|].
    apply Z.eqb_neq in E.
    destruct H as [H|(j & [->|Hj] & Hoff)].
    + left. exact H.
    + exfalso. apply E. symmetry. exact Hoff.
    + right. exists j. split; assumption.
Qed.

(** X10: [Full] fills every element: for a shape whose byte size is an
    [int64_t] value, every element within the bounds of the shape lies, with
    all its bytes, inside the buffer [Full] asked for, and holds what the fill
    kernel stores: the fill value, to be converted to the dtype of the array.
    The device received one allocation request followed by one fill of the
    new buffer.  Without a dtype, the array has the dtype of the fill value;
    [Zeros] and [Ones] fill with the [int] scalars 0 and 1. *)
Theorem Full_elements (shape0 : Shape) (fill_value : Scalar) (dtype0 : Dtype) (device : Device) :
  total_elements shape0 * GetElementSize dtype0 < 2 ^ 63 ->
  (exists out device',
      Full shape0 fill_value dtype0 device = Returned out device'
      /\ calls device'
         = calls device ++ [CallAllocate (Empty_bytesize shape0 dtype0);
                            CallFill (data out) fill_value]
      /\ forall index, in_bounds index shape0 ->
           0 <= element_offset out index
           /\ element_offset out index + GetElementSize dtype0
              <= Empty_bytesize shape0 dtype0
           /\ element (memory device') out index = Some (Filled dtype0 fill_value))
  /\ (total_elements shape0 * GetElementSize (Scalar_.dtype fill_value) < 2 ^ 63 ->
      exists out device',
        Full_scalar shape0 fill_value device = Returned out device'
        /\ dtype out = Scalar_.dtype fill_value
        /\ forall index, in_bounds index shape0 ->
             0 <= element_offset out index
             /\ element_offset out index + GetElementSize (Scalar_.dtype fill_value)
                <= Empty_bytesize shape0 (Scalar_.dtype fill_value)
             /\ element (memory device') out index
                = Some (Filled (Scalar_.dtype fill_value) fill_value))
  /\ (exists out device',
         Zeros shape0 dtype0 device = Returned out device'
         /\ forall index, in_bounds index shape0 ->
              0 <= element_offset out index
              /\ element_offset out index + GetElementSize dtype0
                 <= Empty_bytesize shape0 dtype0
              /\ element (memory device') out index = Some (Filled dtype0 (ScalarInt32 0)))
  /\ (exists out device',
         Ones shape0 dtype0 device = Returned out device'
         /\ forall index, in_bounds index shape0 ->
              0 <= element_offset out index
              /\ element_offset out index + GetElementSize dtype0
                 <= Empty_bytesize shape0 dtype0
              /\ element (memory device') out index = Some (Filled dtype0 (ScalarInt32 1))).
Proof.
  intros Hfit.
  assert (H : forall v dt,
             total_elements shape0 * GetElementSize dt < 2 ^ 63 ->
             exists out device',
               Full shape0 v dt device = Returned out device'
               /\ calls device'
                  = calls device ++ [CallAllocate (Empty_bytesize shape0 dt);
                                     CallFill (data out) v]
               /\ dtype out = dt
               /\ forall index, in_bounds index shape0 ->
                    0 <= element_offset out index
                    /\ element_offset out index + GetElementSize dt
                       <= Empty_bytesize shape0 dt
                    /\ element (memory device') out index = Some (Filled dt v)).
  { intros v dt Hdt.
    unfold Full, bind, Empty, Device_.Allocate, Array_Fill, Device_.Fill, ret.
    eexists _, _. split; [reflexivity|].
    cbn [calls memory data dtype MakeArray]. split; [|split].
    - rewrite <- app_assoc. reflexivity.
    - reflexivity.
    - intros index Hin.
      pose proof (contiguous_offsets_in_allocation shape0 dt index Hdt Hin) as Hoff.
      unfold element_offset at 1 2. cbn [offset strides MakeArray].
      split; [lia|]. split; [lia|].
      unfold element, write_elements, MakeArray. cbn [data shape].
      apply (fold_store_constant (next_buffer device)
               (element_offset
                  (mkArray shape0 (Strides_of shape0 dt) dt (next_buffer device) 0 []))).
      right. exists index. split; [apply in_bounds_indices, Hin | reflexivity]. }
  split; [|split; [|split]].
  - destruct (H fill_value dtype0 Hfit) as (out & device' & Hrun & Hcalls & _ & Hel).
    exists out, device'. split; [exact Hrun|]. split; [exact Hcalls | exact Hel].
  - intros Hfit'.
    destruct (H fill_value (Scalar_.dtype fill_value) Hfit')
      as (out & device' & Hrun & _ & Hdt & Hel).
    exists out, device'. split; [exact Hrun|]. split; [exact Hdt | exact Hel].
  - destruct (H (ScalarInt32 0) dtype0 Hfit) as (out & device' & Hrun & _ & _ & Hel).
    exists out, device'. split; assumption.
  - destruct (H (ScalarInt32 1) dtype0 Hfit) as (out & device' & Hrun & _ & _ & Hel).
    exists out, device'. split; assumption.
Qed.

Lemma Full_elements_witness :
  exists out device',
    Full [2; 3] (ScalarFloat64 (Double.of_Z 7)) Dtype.kInt16 one_buffer_device
    = Returned out device'
    /\ calls device'
       = calls one_buffer_device ++ [CallAllocate 12;
                                     CallFill (data out) (ScalarFloat64 (Double.of_Z 7))]
    /\ element (memory device') out [1; 2]
       = Some (Filled Dtype.kInt16 (ScalarFloat64 (Double.of_Z 7))).
Proof.
  assert (Hfit : total_elements [2; 3] * GetElementSize Dtype.kInt16 < 2 ^ 63)
    by (vm_compute; reflexivity).
  destruct (proj1 (Full_elements [2; 3] (ScalarFloat64 (Double.of_Z 7)) Dtype.kInt16
                     one_buffer_device Hfit))
    as (out & device' & Hrun & Hcalls & Hel).
  exists out, device'. split; [exact Hrun|]. split; [exact Hcalls|].
  apply Hel. repeat constructor; lia.
Defined.

Lemma indices_1d size index :
  In index (indices [size]) -> exists i, index = [i] /\ 0 <= i < size.
Proof.
  intros Hin. apply indices_in_bounds in Hin.
  inversion Hin as [|i d index' sh' Hi Hrest]. subst.
  inversion Hrest. subst. exists i. split; [reflexivity | exact Hi].
Qed.

(** X11: a returning [Arange] asked the device for one buffer and then for one
    range from the [start] and [step] it was given, also when the step is
    negative and the size was computed from the swapped doubles.  When the
    byte size of the range is an [int64_t] value, the element at each index
    [i] below the length lies, with all its bytes, inside that buffer and
    holds what the range kernel stores: the [i]-th value of the range. *)
Theorem Arange_elements
  (start stop step : Scalar) (dtype0 : Dtype) (device : Device) (out : Array)
  (device' : Device) :
  Arange start stop step dtype0 device = Returned out device' ->
  exists size,
    Arange_size start stop step = Some size
    /\ shape out = [size]
    /\ calls device'
       = calls device ++ [CallAllocate (Empty_bytesize [size] dtype0);
                          CallArange start step (data out)]
    /\ (size * GetElementSize dtype0 < 2 ^ 63 ->
        forall i, 0 <= i < size ->
          0 <= element_offset out [i]
          /\ element_offset out [i] + GetElementSize dtype0 <= Empty_bytesize [size] dtype0
          /\ element (memory device') out [i] = Some (Ranged dtype0 start step i)).
Proof.
  intros Hrun.
  destruct (is_zero step) eqn:Hz.
  { rewrite (Arange_zero_step _ _ _ _ _ Hz) in Hrun. discriminate. }
  rewrite (Arange_nonzero_step _ _ _ _ _ Hz) in Hrun.
  destruct (Arange_size start stop step) as [size|]; [|discriminate].
  destruct ((2 <? size) && Dtype.eqb dtype0 Dtype.kBool); [discriminate|].
  unfold bind, Empty, Device_.Allocate, Device_.Arange, ret in Hrun.
  cbn [calls memory data dtype MakeArray next_buffer] in Hrun.
  inversion Hrun. subst out device'. clear Hrun.
  exists size. split; [reflexivity|]. split; [reflexivity|].
  cbn [calls memory data]. split; [rewrite <- app_assoc; reflexivity|].
  intros Hfit i Hi. pose proof (GetElementSize_pos dtype0) as Hes.
  assert (Hin : in_bounds [i] [size]) by (repeat constructor; lia).
  assert (Hfit' : total_elements [size] * GetElementSize dtype0 < 2 ^ 63)
    by (unfold total_elements; cbn [fold_right]; lia).
  pose proof (contiguous_offsets_in_allocation [size] dtype0 [i] Hfit' Hin) as Hoff.
  unfold element_offset at 1 2. cbn [offset strides MakeArray].
  split; [lia|]. split; [lia|].
  unfold element, write_elements. cbn [data shape].
  rewrite (fold_store_same (next_buffer device)
             (element_offset
                (mkArray [size] (Strides_of [size] dtype0) dtype0 (next_buffer device) 0 []))
             (fun index => Some (Ranged dtype0 start step (hd 0 index)))).
  - reflexivity.
  - intros x y Hx Hy E.
    destruct (indices_1d size x Hx) as (ix & -> & Hix).
    destruct (indices_1d size y Hy) as (iy & -> & Hiy).
    unfold element_offset, Strides_of, Strides_of_size in E.
    cbn [offset strides strides_from fst dot] in E.
    f_equal. nia.
  - apply in_bounds_indices, Hin.
Qed.

Lemma Arange_elements_witness :
  exists out device',
    Arange (ScalarInt32 10) (ScalarInt32 0) (ScalarInt32 (-3)) Dtype.kInt32 fresh_device
    = Returned out device'
    /\ element (memory device') out [1]
       = Some (Ranged Dtype.kInt32 (ScalarInt32 10) (ScalarInt32 (-3)) 1).
Proof.
  destruct (Arange (ScalarInt32 10) (ScalarInt32 0) (ScalarInt32 (-3)) Dtype.kInt32
              fresh_device) as [out device'|e d| |] eqn:H;
    try (vm_compute in H; discriminate).
  exists out, device'. split; [reflexivity|].
  destruct (Arange_elements _ _ _ _ _ _ _ H) as (size & Hs & _ & _ & Hel).
  vm_compute in Hs. inversion Hs. subst size.
  apply (Hel ltac:(vm_compute; reflexivity) 1). lia.
Defined.

(** ** The empty range *)

Lemma binary_round_aux_nonzero sx mx ex :
  53 <= Zpos (digits2_pos mx) -> -1074 <= Zpos (digits2_pos mx) + ex - 53 ->
  nonzero_double (binary_round_aux 53 1024 sx (Zpos mx) ex loc_Exact) = true.
Proof.
  intros HD HE.
  destruct (shr_fexp_normal mx ex HD HE) as (mrs & Hshr & Hm).
  unfold binary_round_aux. rewrite Hshr.
  set (E := Zpos (digits2_pos mx) + ex - 53) in *.
  set (m2 := round_nearest_even (shr_m mrs) (loc_of_shr_record mrs)).
  assert (Hm2 : 2 ^ 52 <= m2 < 2 ^ 53 \/ m2 = 2 ^ 53).
  { destruct (round_nearest_even_cases (shr_m mrs) (loc_of_shr_record mrs)) as [H|H];
      fold m2 in H; lia. }
  destruct Hm2 as [Hm2|Hm2].
  - unfold shr_fexp. rewrite (Zdigits2_unique m2 53) by lia.
    unfold fexp, emin. rewrite Z.max_l by lia.
    replace (53 + E - 53 - E) with 0 by lia.
    cbn [shr shr_record_of_loc shr_m].
    destruct m2 as [|q|q] eqn:Eq; try lia.
    destruct (E <=? 1024 - 53); reflexivity.
  - rewrite Hm2. unfold shr_fexp.
    change (Zdigits2 (2 ^ 53)) with 54.
    unfold fexp, emin. rewrite Z.max_l by lia.
    replace (54 + E - 53 - E) with 1 by lia.
    cbn [shr shr_record_of_loc shr_m iter_pos].
    change (shr_m (shr_1 {| shr_m := 2 ^ 53; shr_r := false; shr_s := false |}))
      with (Zpos (2 ^ 52)).
    cbv iota.
    destruct (E + 1 <=? 1024 - 53); reflexivity.
Qed.

(** The double of a nonzero integer is a nonzero number. *)
Lemma of_Z_nonzero z : z <> 0 -> nonzero_double (Double.of_Z z) = true.
Proof.
  intros Hz.
  unfold Double.of_Z, binary_normalize, Double.prec, Double.emax.
  assert (H : forall sx mx, nonzero_double (binary_round 53 1024 sx mx 0) = true).
  { intros sx mx. unfold binary_round, shl_align.
    unfold fexp, emin. rewrite !Z.add_0_r.
    pose proof (Pos2Z.is_pos (digits2_pos mx)) as HD.
    rewrite !Z.max_l by lia. rewrite Z.sub_0_r.
    destruct (Zpos (digits2_pos mx) - 53) as [|p|p] eqn:E.
    - apply binary_round_aux_nonzero; lia.
    - apply binary_round_aux_nonzero; lia.
    - pose proof (Pos2Z.opp_pos p) as Hp.
      apply binary_round_aux_nonzero; rewrite digits2_pos_iter; lia. }
  destruct z; [contradiction | apply H | apply H].
Qed.

Lemma to_double_nonzero step :
  is_zero step = false -> Scalar_.to_double step <> S754_nan ->
  nonzero_double (Scalar_.to_double step) = true.
Proof.
  destruct step as [v|v|v|v|v|v|v|v]; cbn [is_zero Scalar_.to_double]; intros Hz Hnan;
    try (apply of_Z_nonzero; apply Z.eqb_neq; exact Hz).
  - destruct v; [reflexivity | discriminate].
  - destruct v; try reflexivity; [discriminate | contradiction].
  - destruct v; try reflexivity; [discriminate | contradiction].
Qed.

Lemma sub_self x : finite_double x = true -> Double.sub x x = S754_zero false.
Proof.
  destruct x as [s|s| |s m e]; try discriminate; intros _.
  - destruct s; reflexivity.
  - unfold Double.sub, SFsub. rewrite Z.min_id.
    rewrite Z.sub_diag. reflexivity.
Qed.

Lemma zero_quotient_size s :
  nonzero_double s = true ->
  Double.to_int64 (Double.ceil (Double.div (S754_zero false) s)) = Some 0.
Proof. destruct s; try discriminate; reflexivity. Qed.

Lemma Arange_normalize_step start stop step :
  Scalar_.valid step = true -> nonzero_double (Scalar_.to_double step) = true ->
  exists a b s,
    Arange_normalize start stop step = (a, b, s)
    /\ nonzero_double s = true
    /\ (a = Scalar_.to_double start /\ b = Scalar_.to_double stop
        \/ a = Scalar_.to_double stop /\ b = Scalar_.to_double start).
Proof.
  intros Hv Hnz. rewrite (Arange_normalize_spec _ _ _ (to_double_valid step Hv)).
  unfold normalized_range.
  destruct (Double.ltb (Scalar_.to_double step) (Double.of_Z 0)).
  - eexists _, _, _. split; [reflexivity|]. split; [|right; split; reflexivity].
    destruct (Scalar_.to_double step); try discriminate; reflexivity.
  - eexists _, _, _. split; [reflexivity|]. split; [exact Hnz | left; split; reflexivity].
Qed.

Lemma Empty_bytesize_no_element dt : Empty_bytesize [0] dt = 0.
Proof. destruct dt; reflexivity. Qed.

(** X13: a range whose [start] and [stop] convert to the same finite double is
    empty, whatever the direction and the dtype: for a nonzero step that is
    not NaN, [Arange] returns an array of shape [(0)], after asking the
    device for 0 bytes and for the range; [Arange(0)] is such a range. *)
Theorem Arange_empty_range
  (start stop step : Scalar) (dtype0 : Dtype) (device : Device) :
  Scalar_.to_double stop = Scalar_.to_double start ->
  finite_double (Scalar_.to_double start) = true ->
  is_zero step = false ->
  Scalar_.valid step = true ->
  Scalar_.to_double step <> S754_nan ->
  Arange_size start stop step = Some 0
  /\ exists out device',
       Arange start stop step dtype0 device = Returned out device'
       /\ shape out = [0]
       /\ calls device' = calls device ++ [CallAllocate 0; CallArange start step (data out)].
Proof.
  intros Heq Hfin Hz Hv Hnan.
  pose proof (to_double_nonzero step Hz Hnan) as Hnz.
  assert (Hsize : Arange_size start stop step = Some 0).
  { unfold Arange_size.
    destruct (Arange_normalize_step start stop step Hv Hnz)
      as (a & b & s & -> & Hs & [[-> ->]|[-> ->]]);
      rewrite Heq, (sub_self _ Hfin), (zero_quotient_size s Hs); reflexivity. }
  split; [exact Hsize|].
  rewrite (Arange_nonzero_step _ _ _ _ _ Hz), Hsize.
  cbn [Z.ltb Z.compare andb].
  unfold bind, Empty, Device_.Allocate, Device_.Arange, ret.
  eexists _, _. split; [reflexivity|]. split; [reflexivity|].
  cbn [calls data MakeArray]. rewrite Empty_bytesize_no_element, <- app_assoc. reflexivity.
Qed.

Lemma Arange_empty_range_witness :
  Arange_size (ScalarInt32 0) (ScalarInt32 0) (ScalarInt32 1) = Some 0
  /\ exists out device',
       Arange_stop_dtype (ScalarInt32 0) Dtype.kFloat32 fresh_device = Returned out device'
       /\ shape out = [0]
       /\ calls device'
          = calls fresh_device
            ++ [CallAllocate 0; CallArange (ScalarInt32 0) (ScalarInt32 1) (data out)].
Proof.
  refine (Arange_empty_range (ScalarInt32 0) (ScalarInt32 0) (ScalarInt32 1) Dtype.kFloat32
            fresh_device _ _ _ _ _); try reflexivity.
  vm_compute. discriminate.
Defined.

(** ** The overloads with a default step *)

Lemma Arange_outcome start stop step dt device :
  (exists out device', Arange start stop step dt device = Returned out device')
  \/ (exists e, Arange start stop step dt device = Thrown e device)
  \/ Arange start stop step dt device = UndefinedBehavior.
Proof.
  destruct (is_zero step) eqn:Hz.
  - right. left. eexists. apply Arange_zero_step, Hz.
  - rewrite (Arange_nonzero_step _ _ _ _ _ Hz).
    destruct (Arange_size start stop step) as [size|]; [|right; right; reflexivity].
    destruct ((2 <? size) && Dtype.eqb dt Dtype.kBool).
    + right. left. eexists. reflexivity.
    + left. unfold bind, Empty, Device_.Allocate, Device_.Arange, ret.
      eexists _, _. reflexivity.
Qed.

(** X14: the default step is never rejected, and [Arange(stop, device)] never
    throws: [Arange(stop, dtype, device)] and [Arange(start, stop, dtype,
    device)] can only throw the boolean length error, and only for the
    boolean dtype; [Arange(stop, device)], whose dtype is that of [stop],
    either returns an array or has no defined size (a [stop] that is NaN,
    infinite or beyond [int64_t]): a boolean [stop] gives a length of at most
    1. *)
Theorem Arange_default_step (start stop : Scalar) (dtype0 : Dtype) (device : Device) :
  ((exists out device', Arange_stop stop device = Returned out device')
   \/ Arange_stop stop device = UndefinedBehavior)
  /\ ((exists out device', Arange_stop_dtype stop dtype0 device = Returned out device')
      \/ Arange_stop_dtype stop dtype0 device = UndefinedBehavior
      \/ dtype0 = Dtype.kBool
         /\ Arange_stop_dtype stop dtype0 device = Thrown bool_size_error device)
  /\ ((exists out device',
          Arange_start_stop_dtype start stop dtype0 device = Returned out device')
      \/ Arange_start_stop_dtype start stop dtype0 device = UndefinedBehavior
      \/ dtype0 = Dtype.kBool
         /\ Arange_start_stop_dtype start stop dtype0 device = Thrown bool_size_error device).
Proof.
  assert (H : forall start' dt,
             (exists out device',
                 Arange start' stop (Scalar_.of_int 1) dt device = Returned out device')
             \/ Arange start' stop (Scalar_.of_int 1) dt device = UndefinedBehavior
             \/ dt = Dtype.kBool
                /\ Arange start' stop (Scalar_.of_int 1) dt device
                   = Thrown bool_size_error device
                /\ exists size,
                     Arange_size start' stop (Scalar_.of_int 1) = Some size /\ 2 < size).
  { intros start' dt.
    destruct (Arange_outcome start' stop (Scalar_.of_int 1) dt device)
      as [Hret|[(e & Hthrow)|Hub]]; [left; exact Hret | | right; left; exact Hub].
    right. right.
    destruct (Arange_thrown_device _ _ _ _ _ _ _ Hthrow)
      as (_ & [[_ Hz]|(-> & _ & -> & Hsize)]); [discriminate|].
    split; [reflexivity|]. split; [exact Hthrow | exact Hsize]. }
  split; [|split].
  - unfold Arange_stop.
    destruct (H (Scalar_.of_int 0) (Scalar_.dtype stop))
      as [Hret|[Hub|(Hdt & _ & size & Hsize & Hlt)]];
      [left; exact Hret | right; exact Hub |].
    exfalso. destruct stop as [v|v|v|v|v|v|v|v]; try discriminate.
    destruct v; vm_compute in Hsize; inversion Hsize; subst; lia.
  - unfold Arange_stop_dtype.
    destruct (H (Scalar_.of_int 0) dtype0) as [Hret|[Hub|(Hdt & Hthrow & _)]];
      [left; exact Hret | right; left; exact Hub | right; right; split; assumption].
  - unfold Arange_start_stop_dtype.
    destruct (H start dtype0) as [Hret|[Hub|(Hdt & Hthrow & _)]];
      [left; exact Hret | right; left; exact Hub | right; right; split; assumption].
Qed.

(** ** Ranges that run the wrong way *)

(** Rounding keeps the sign it is given. *)
Lemma binary_round_aux_negative mx ex lx :
  negative_or_nan (binary_round_aux 53 1024 true mx ex lx) = true.
Proof.
  unfold binary_round_aux.
  destruct (shr_fexp 53 1024 mx ex lx) as [mrs' e'].
  destruct (shr_fexp 53 1024 _ e' loc_Exact) as [mrs'' e''].
  destruct (shr_m mrs''); [reflexivity | | reflexivity].
  destruct (e'' <=? 1024 - 53); reflexivity.
Qed.

Lemma binary_normalize_negative z e szero :
  z < 0 -> negative_or_nan (binary_normalize 53 1024 z e szero) = true.
Proof.
  intros Hz. destruct z as [|p|p]; try lia.
  cbn [binary_normalize]. unfold binary_round.
  destruct (shl_align p e _) as [mz ez]. apply binary_round_aux_negative.
Qed.

Lemma binary_normalize_nonpositive z e :
  z <= 0 -> negative_or_nan (binary_normalize 53 1024 z e true) = true.
Proof.
  intros Hz. destruct (Z.eq_dec z 0) as [->|Hnz]; [reflexivity|].
  apply binary_normalize_negative. lia.
Qed.

(** The mantissa of a number of the format has at most 53 digits, and exactly
    53 above the least exponent. *)
Lemma valid_digits s m e :
  Double.valid (S754_finite s m e) = true ->
  -1074 <= e /\ Zpos m < 2 ^ 53 /\ (-1074 < e -> 2 ^ 52 <= Zpos m).
Proof.
  unfold Double.valid, valid_binary, bounded, canonical_mantissa, fexp, emin,
    Double.prec, Double.emax.
  intros H. apply andb_prop in H. destruct H as [Hc _]. apply Z.eqb_eq in Hc.
  pose proof (digits2_bounds m) as [Hlo Hhi].
  set (D := Zpos (digits2_pos m)) in *.
  assert (HD : D <= 53) by lia.
  split; [lia|]. split.
  - apply Z.lt_le_trans with (2 ^ D); [exact Hhi|].
    apply Z.pow_le_mono_r; lia.
  - intros He. assert (D = 53) by lia. replace 52 with (D - 1) by lia. exact Hlo.
Qed.

Lemma Pos_iter_xO_value m d : Zpos (Pos.iter xO m d) = Zpos m * 2 ^ Zpos d.
Proof.
  rewrite Pos2Nat.inj_iter, <- (positive_nat_Z d).
  induction (Pos.to_nat d) as [|n IH].
  - cbn. lia.
  - cbn [nat_rect]. rewrite Pos2Z.inj_xO, IH, Nat2Z.inj_succ, Z.pow_succ_r by lia. lia.
Qed.

Lemma shl_align_value m e ez :
  ez <= e -> Zpos (fst (shl_align m e ez)) = Zpos m * 2 ^ (e - ez).
Proof.
  intros Hle. unfold shl_align.
  destruct (ez - e) as [|d|d] eqn:E.
  - cbn [fst]. replace (e - ez) with 0 by lia. lia.
  - lia.
  - cbn [fst]. rewrite Pos_iter_xO_value. f_equal. f_equal.
    pose proof (Pos2Z.opp_pos d). lia.
Qed.

(** A number with a smaller exponent, or the same exponent and a smaller
    mantissa, has the smaller aligned mantissa. *)
Lemma aligned_lt s1 m1 e1 s2 m2 e2 :
  Double.valid (S754_finite s1 m1 e1) = true ->
  Double.valid (S754_finite s2 m2 e2) = true ->
  e1 < e2 \/ e1 = e2 /\ Zpos m1 < Zpos m2 ->
  Zpos (fst (shl_align m1 e1 (Z.min e1 e2))) < Zpos (fst (shl_align m2 e2 (Z.min e1 e2))).
Proof.
  intros H1 H2 Hlt.
  destruct (valid_digits _ _ _ H1) as (He1 & Hm1 & _).
  destruct (valid_digits _ _ _ H2) as (He2 & _ & Hm2).
  rewrite !shl_align_value by lia.
  destruct Hlt as [Hlt|[-> Hlt]].
  - rewrite Z.min_l by lia. rewrite Z.sub_diag, Z.mul_1_r.
    specialize (Hm2 ltac:(lia)).
    assert (2 <= 2 ^ (e2 - e1)).
    { change 2 with (2 ^ 1) at 1. apply Z.pow_le_mono_r; lia. }
    nia.
  - rewrite Z.min_id, Z.sub_diag, !Z.mul_1_r. exact Hlt.
Qed.

Lemma compare_cont_lt m1 m2 :
  Pos.compare_cont Eq m1 m2 = Lt -> Zpos m1 < Zpos m2.
Proof. intros H. apply Pos2Z.pos_lt_pos. exact H. Qed.

Lemma compare_cont_gt m1 m2 :
  Pos.compare_cont Eq m1 m2 = Gt -> Zpos m2 < Zpos m1.
Proof.
  intros H. apply Pos2Z.pos_lt_pos. apply Pos.gt_lt. exact H.
Qed.

(** The difference of a smaller and a larger number has its sign bit set. *)
Lemma sub_lt_negative a b :
  Double.valid a = true -> Double.valid b = true -> Double.ltb b a = true ->
  negative_or_nan (Double.sub b a) = true.
Proof.
  intros Ha Hb Hlt. unfold Double.ltb, SFltb in Hlt.
  destruct b as [sb|sb| |sb mb eb], a as [sa|sa| |sa ma ea];
    cbn [SFcompare] in Hlt; try discriminate;
    try (destruct sb; try discriminate; destruct sa; try discriminate; reflexivity);
    try (destruct sa; try discriminate; reflexivity);
    try (destruct sb; try discriminate; reflexivity).
  unfold Double.sub, SFsub. apply binary_normalize_negative.
  destruct sb, sa; cbn [cond_Zopp]; try discriminate.
  - (* both negative *)
    destruct (Z.compare_spec eb ea) as [Heq|Hl|Hg]; try discriminate.
    + subst ea. destruct (Pos.compare_cont Eq mb ma) eqn:Hc; try discriminate.
      apply compare_cont_gt in Hc.
      pose proof (aligned_lt true ma eb true mb eb Ha Hb (or_intror (conj eq_refl Hc))).
      lia.
    + pose proof (aligned_lt true ma ea true mb eb Ha Hb (or_introl Hg)) as H.
      rewrite Z.min_comm in H. lia.
  - (* b negative, a positive *)
    pose proof (Pos2Z.is_pos (fst (shl_align mb eb (Z.min eb ea)))).
    pose proof (Pos2Z.is_pos (fst (shl_align ma ea (Z.min eb ea)))).
    lia.
  - (* both positive *)
    destruct (Z.compare_spec eb ea) as [Heq|Hl|Hg]; try discriminate.
    + subst ea. destruct (Pos.compare_cont Eq mb ma) eqn:Hc; try discriminate.
      apply compare_cont_lt in Hc.
      pose proof (aligned_lt false mb eb false ma eb Hb Ha (or_intror (conj eq_refl Hc))).
      lia.
    + pose proof (aligned_lt false mb eb false ma ea Hb Ha (or_introl Hl)). lia.
Qed.

Lemma div_negative x s :
  negative_or_nan x = true -> Double.ltb (Double.of_Z 0) s = true ->
  negative_or_nan (Double.div x s) = true.
Proof.
  intros Hx Hs. unfold Double.ltb, SFltb in Hs.
  destruct s as [ss|ss| |ss ms es]; cbn in Hs; try discriminate;
    destruct ss; try discriminate;
    destruct x as [sx|sx| |sx mx ex]; cbn [negative_or_nan] in Hx; subst;
    try reflexivity.
  unfold Double.div, SFdiv, Double.prec, Double.emax.
  destruct (SFdiv_core_binary 53 1024 (Zpos mx) ex (Zpos ms) es) as [[mz ez] lz].
  apply binary_round_aux_negative.
Qed.

Lemma to_int64_negative x n :
  negative_or_nan x = true -> Double.to_int64 x = Some n -> n <= 0.
Proof.
  destruct x as [s|s| |s m e]; cbn [negative_or_nan Double.to_int64];
    intros Hs H; try discriminate.
  - inversion H. lia.
  - subst s. unfold cond_Zopp in H.
    set (v := if 0 <=? e then - Zpos m * 2 ^ e else Z.quot (- Zpos m) (2 ^ (- e))) in H.
    assert (Hv : v <= 0).
    { unfold v. destruct (0 <=? e) eqn:He.
      - apply Z.leb_le in He.
        assert (0 < 2 ^ e) by (apply Z.pow_pos_nonneg; lia). nia.
      - apply Z.leb_gt in He.
        assert (0 < 2 ^ (- e)) by (apply Z.pow_pos_nonneg; lia).
        rewrite Z.quot_opp_l by lia.
        pose proof (Z.quot_pos (Zpos m) (2 ^ (- e)) ltac:(lia) ltac:(lia)). lia. }
    destruct ((Int64.min_signed <=? v) && (v <=? Int64.max_signed)) in H; [|discriminate].
    inversion H. subst n. exact Hv.
Qed.

Lemma ceil_negative x : negative_or_nan x = true -> negative_or_nan (Double.ceil x) = true.
Proof.
  destruct x as [s|s| |s m e]; cbn [negative_or_nan Double.ceil]; intros Hs;
    try assumption.
  subst s. destruct (0 <=? e) eqn:He; [reflexivity|].
  apply Z.leb_gt in He. apply binary_normalize_nonpositive.
  unfold cond_Zopp. rewrite Z.opp_involutive.
  assert (0 < 2 ^ (- e)) by (apply Z.pow_pos_nonneg; lia).
  pose proof (Z.div_pos (Zpos m) (2 ^ (- e)) ltac:(lia) ltac:(lia)). lia.
Qed.

Lemma positive_not_negative s :
  Double.ltb (Double.of_Z 0) s = true -> Double.ltb s (Double.of_Z 0) = false.
Proof.
  unfold Double.ltb, SFltb.
  destruct s as [ss|ss| |ss ms es]; cbn; try discriminate; destruct ss; try discriminate;
    reflexivity.
Qed.

Lemma negative_opp_positive s :
  Double.ltb s (Double.of_Z 0) = true -> Double.ltb (Double.of_Z 0) (SFopp s) = true.
Proof.
  unfold Double.ltb, SFltb.
  destruct s as [ss|ss| |ss ms es]; cbn; try discriminate; destruct ss; try discriminate;
    reflexivity.
Qed.

(** X16: the length of a range is never negative, and a range that runs the
    wrong way is empty: whenever the size is defined, it is 0 if the step is
    positive and [stop] is below [start], or the step is negative and [start]
    is below [stop].  Floating point scalars are numbers of the binary64
    format. *)
Theorem Arange_wrong_way_empty (start stop step : Scalar) (size : Z) :
  Scalar_.valid start = true -> Scalar_.valid stop = true -> Scalar_.valid step = true ->
  Arange_size start stop step = Some size ->
  0 <= size
  /\ (Double.ltb (Double.of_Z 0) (Scalar_.to_double step) = true
      /\ Double.ltb (Scalar_.to_double stop) (Scalar_.to_double start) = true
      \/ Double.ltb (Scalar_.to_double step) (Double.of_Z 0) = true
         /\ Double.ltb (Scalar_.to_double start) (Scalar_.to_double stop) = true ->
      size = 0).
Proof.
  intros Hstart Hstop Hstep Hsize.
  apply to_double_valid in Hstart. apply to_double_valid in Hstop.
  apply to_double_valid in Hstep.
  unfold Arange_size in Hsize.
  rewrite (Arange_normalize_spec _ _ _ Hstep) in Hsize. unfold normalized_range in Hsize.
  split.
  - destruct (Double.ltb _ _) in Hsize;
      destruct (Double.to_int64 _) in Hsize; try discriminate; inversion Hsize; lia.
  - intros [[Hpos Hlt]|[Hneg Hlt]].
    + rewrite (positive_not_negative _ Hpos) in Hsize.
      destruct (Double.to_int64 _) as [n|] eqn:Hn in Hsize; [|discriminate].
      inversion Hsize.
      pose proof (to_int64_negative _ n
                    (ceil_negative _ (div_negative _ _
                       (sub_lt_negative _ _ Hstart Hstop Hlt) Hpos)) Hn).
      lia.
    + rewrite Hneg in Hsize.
      destruct (Double.to_int64 _) as [n|] eqn:Hn in Hsize; [|discriminate].
      inversion Hsize.
      pose proof (to_int64_negative _ n
                    (ceil_negative _ (div_negative _ _
                       (sub_lt_negative _ _ Hstop Hstart Hlt)
                       (negative_opp_positive _ Hneg))) Hn).
      lia.
Qed.

Lemma Arange_wrong_way_empty_witness :
  exists size,
    Arange_size (ScalarInt32 0) (ScalarInt32 10) (ScalarInt32 (-1)) = Some size
    /\ size = 0.
Proof.
  destruct (Arange_size (ScalarInt32 0) (ScalarInt32 10) (ScalarInt32 (-1)))
    as [size|] eqn:H; [|vm_compute in H; discriminate].
  exists size. split; [reflexivity|].
  apply (proj2 (Arange_wrong_way_empty (ScalarInt32 0) (ScalarInt32 10) (ScalarInt32 (-1))
                  size eq_refl eq_refl eq_refl H)).
  right. split; vm_compute; reflexivity.
Defined.

(** ** Arguments that are not finite *)

Lemma sub_not_finite a b :
  finite_double a = false \/ finite_double b = false ->
  finite_double (Double.sub b a) = false.
Proof.
  destruct a as [sa|sa| |sa ma ea], b as [sb|sb| |sb mb eb];
    cbn [finite_double]; intros [H|H]; try discriminate; try reflexivity;
    destruct sa, sb; reflexivity.
Qed.

Lemma div_not_finite x s :
  finite_double x = false -> finite_double (Double.div x s) = false.
Proof.
  destruct x as [sx|sx| |sx mx ex]; cbn [finite_double]; intros H; try discriminate;
    destruct s; reflexivity.
Qed.

Lemma not_finite_undefined x :
  finite_double x = false -> Double.to_int64 (Double.ceil x) = None.
Proof. destruct x; cbn [finite_double]; intros H; try discriminate; reflexivity. Qed.

Lemma div_nan x : Double.div x S754_nan = S754_nan.
Proof. destruct x; reflexivity. Qed.

Lemma ceil_not_finite x :
  finite_double x = false -> finite_double (Double.ceil x) = false.
Proof. destruct x; cbn [finite_double]; intros H; try discriminate; reflexivity. Qed.

(** X17: [Arange] does not check that its arguments are finite: when [start]
    or [stop] is infinite or NaN, or the step is NaN, the double that
    [Arange] hands to [static_cast<int64_t>] is itself infinite or NaN, a
    conversion whose result C++ leaves undefined; the size of the output has
    then no defined value. *)
Theorem Arange_not_finite (start stop step : Scalar) :
  finite_double (Scalar_.to_double start) = false
  \/ finite_double (Scalar_.to_double stop) = false
  \/ Scalar_.to_double step = S754_nan ->
  (let '(d_start, d_stop, d_step) := Arange_normalize start stop step in
   finite_double (Double.ceil (Double.div (Double.sub d_stop d_start) d_step)) = false)
  /\ Arange_size start stop step = None.
Proof.
  intros Hnf.
  assert (Hq : let '(d_start, d_stop, d_step) := Arange_normalize start stop step in
               finite_double (Double.div (Double.sub d_stop d_start) d_step) = false).
  { unfold Arange_normalize.
    destruct Hnf as [H|[H|H]].
    - destruct (Double.ltb _ _); apply div_not_finite, sub_not_finite; auto.
    - destruct (Double.ltb _ _); apply div_not_finite, sub_not_finite; auto.
    - rewrite H. change (Double.ltb S754_nan (Double.of_Z 0)) with false.
      cbv iota. rewrite div_nan. reflexivity. }
  unfold Arange_size.
  destruct (Arange_normalize start stop step) as [[d_start d_stop] d_step].
  split.
  - apply ceil_not_finite, Hq.
  - rewrite not_finite_undefined by exact Hq. reflexivity.
Qed.

Lemma Arange_not_finite_witness :
  Arange_size (ScalarInt32 0) (ScalarFloat64 (S754_infinity false)) (ScalarInt32 1) = None.
Proof.
  refine (proj2 (Arange_not_finite (ScalarInt32 0) (ScalarFloat64 (S754_infinity false))
                   (ScalarInt32 1) _)).
  right. left. reflexivity.
Defined.
